(** * thumber: contact sheets from evenly spaced video frames

    A shallow embedding of package [thumber] (options, colour parsing,
    duration probing, the timing plan inside [MakeThumbnails], the
    extraction pool, and the contact-sheet compositor, with the sequential
    revision of [MakeThumbnails]), of the command line's argument reading
    and [Run] (cmd/thumber), and of package [version], followed by the
    properties established for them.

    Modelling conventions.
    - Go's [int], [int64] and [time.Duration] are 64-bit two's-complement
      integers: values live in [Z] and every arithmetic result is wrapped
      by [Int64.wrap].  Go's [/] and [%] truncate toward zero
      ([Z.quot], [Z.rem]); dividing by zero panics.
    - A call either returns a value, returns a Go [error], or panics:
      type [result].
    - An interface value ([image.Image], [color.Color]) is an [option]:
      [None] is [nil].
    - The external collaborators (the [ffprobe] and [ffmpeg] subprocesses
      with image decoding, the freetype rasteriser, the runtime's allocator,
      and the order in which pool goroutines finish) are inputs of the
      model: record [World] and the [order] argument of [MakeThumbnails].
      The allocator is asked for the two pixel buffers whose size the
      program computes, the canvas and the label; the copies the imaging
      library makes of images that exist already are taken to succeed. *)

From Stdlib Require Import ZArith List String Ascii Bool Lia.
From Stdlib Require Import QArith Qround.
From Stdlib Require Import Permutation Sorted.
From Stdlib Require Import DecimalString.
Import ListNotations.

Local Open Scope string_scope.
Local Open Scope Z_scope.

(** ** 64-bit integers *)

Module Int64.

Definition min : Z := - 2 ^ 63.
Definition max : Z := 2 ^ 63 - 1.

Definition in_range (z : Z) : Prop := min <= z <= max.

Definition in_rangeb (z : Z) : bool := (min <=? z) && (z <=? max).

(** Two's-complement reduction into [[min, max]]. *)
Definition wrap (z : Z) : Z := (z + 2 ^ 63) mod 2 ^ 64 - 2 ^ 63.

Definition add (a b : Z) : Z := wrap (a + b).
Definition sub (a b : Z) : Z := wrap (a - b).
Definition mul (a b : Z) : Z := wrap (a * b).

(** Go's [a / b] for [b <> 0]: truncated quotient; [min / -1] wraps. *)
Definition quot (a b : Z) : Z := wrap (Z.quot a b).

(** Go's [a % b] for [b <> 0]. *)
Definition rem (a b : Z) : Z := Z.rem a b.

End Int64.

(** ** package time *)

Definition Nanosecond : Z := 1.
Definition Microsecond : Z := 1000 * Nanosecond.
Definition Millisecond : Z := 1000 * Microsecond.
Definition Second : Z := 1000 * Millisecond.
Definition Minute : Z := 60 * Second.
Definition Hour : Z := 60 * Minute.

(** [(time.Duration).Milliseconds]. *)
Definition Milliseconds (d : Z) : Z := Int64.quot d Millisecond.

(** ** Errors, panics, results *)

(** One constructor per [fmt.Errorf] site of the package, plus the error
    joined by the pool.  A [%w] argument becomes a constructor argument. *)
#[warnings="-register-all"]
Inductive error : Type :=
| ErrStartAfterEnd
| ErrIntervalAndCount
| ErrInvalidOptions (cause : error)
| ErrFfmpegNotInstalled
| ErrFfprobeNotInstalled
| ErrRunFfprobe (stderr : string)
| ErrParseSeconds (text : string)
| ErrReadDuration (cause : error)
| ErrIntervalLarger (duration : Z)
| ErrRunFfmpeg (stderr : string)
| ErrDecodeImage (cause : string)
| ErrJoin (errs : list error)
| ErrMeasureString (cause : string)
| ErrDrawString (cause : string)
| ErrMakeThumbnails (cause : error)
| ErrZeroImages
| ErrInvalidHex (hex : string).

(** The ways a run ends abnormally.  [HugeDimensions] is the panic of
    [image.NewNRGBA] and [image.NewRGBA] on a rectangle that is "huge or
    negative"; [OutOfMemory] is [make] failing: the runtime panics on a
    length beyond its cap and aborts when memory is exhausted. *)
Inductive panic : Type :=
| DivideByZero
| IndexOutOfRange
| NilDereference
| HugeDimensions
| OutOfMemory.

Inductive result (A : Type) : Type :=
| Ok (a : A)
| Err (e : error)
| Panic (p : panic).

Arguments Ok {A} a.
Arguments Err {A} e.
Arguments Panic {A} p.

Definition bind {A B : Type} (r : result A) (k : A -> result B) : result B :=
  match r with
  | Ok a => k a
  | Err e => Err e
  | Panic p => Panic p
  end.

Declare Scope go_scope.
Delimit Scope go_scope with go.
Notation "x <- r ;; k" := (bind r (fun x => k))
  (at level 61, r at next level, right associativity) : go_scope.
Notation "' pat <- r ;; k" := (bind r (fun x => match x with pat => k end))
  (at level 61, pat pattern, r at next level, right associativity) : go_scope.

(** ** Colours and images *)

(** The dynamic values of [color.Color] the package handles:
    [color.Transparent] is [color.Alpha16{0}], [color.Black] and
    [color.White] are [color.Gray16] values, and [ParseColor] makes
    [color.RGBA] values.  A variable of type [color.Color] is an
    [option Color]. *)
Inductive Color : Type :=
| Alpha16 (a : Z)
| Gray16 (y : Z)
| RGBA (r g b a : Z).

Definition Transparent : Color := Alpha16 0.
Definition Black : Color := Gray16 0.
Definition White : Color := Gray16 65535.

(** Values of Go's [image.Image], kept up to their bounds and provenance;
    pixels are not modelled.  [Raster] is a decoded frame, [Label] the
    image a timestamp renderer returns (its sides, the background it was
    filled with, its text), and [Overlaid bg fg x y] is
    [imaging.Overlay bg fg (x, y) 1], whose result has the bounds of [bg]. *)
Inductive image : Type :=
| Raster (width height : Z) (content : Z)
| Label (width height : Z) (background : option Color) (text : string)
| Overlaid (bg fg : image) (x y : Z).

Fixpoint Dx (img : image) : Z :=
  match img with
  | Raster w _ _ => w
  | Label w _ _ _ => w
  | Overlaid bg _ _ _ => Dx bg
  end.

Fixpoint Dy (img : image) : Z :=
  match img with
  | Raster _ h _ => h
  | Label _ h _ _ => h
  | Overlaid bg _ _ _ => Dy bg
  end.

(** ** ThumbOptions *)

Record ThumbOptions : Type := {
  From : Z;
  To : Z;
  TileColumns : Z;
  TileCount : Z;
  Interval : Z;
  TileWidth : Z;
  TileHeight : Z;
  OverlayTimestamps : bool;
  TimestampBackground : option Color;
  Padding : Z
}.

Definition Validate (o : ThumbOptions) : option error :=
  if negb (From o =? 0) && negb (To o =? 0) && (From o >? To o) then
    Some ErrStartAfterEnd
  else if negb (Interval o =? 0) && negb (TileCount o =? 0) then
    Some ErrIntervalAndCount
  else None.

(** ** The outside world *)

(** What [strconv.ParseFloat] made of the trimmed [ffprobe] output: a
    float64 is given by its exact rational value. *)
Inductive float64 : Type :=
| Finite (q : Q)
| Inf (negative : bool)
| NaN.

Inductive ProbeOutput : Type :=
| ProbeExit (stderr : string)
| ProbeUnparsable (text : string)
| ProbeSeconds (seconds : float64).

Inductive FrameOutput : Type :=
| FfmpegExit (stderr : string)
| Undecodable (cause : string)
| Frame (img : image).

Inductive MeasureOutput : Type :=
| MeasureFailed (cause : string)
| Measured (tw th : Z).

Record World : Type := {
  ffmpegInPath : bool;
  ffprobeInPath : bool;
  (** [ffprobe] on the video, up to and including [strconv.ParseFloat] *)
  ffprobe : ProbeOutput;
  (** [ffmpeg -ss <ms>ms ... scale=<w>:<h>] on the video and [image.Decode] *)
  ffmpeg : Z -> Z -> Z -> FrameOutput;
  (** [c.MeasureString(text)] with the package's font at 12pt: the error,
      or the width and height in 1/256 pixel *)
  measureString : string -> MeasureOutput;
  (** [c.DrawString(text, ...)] in white onto the label: the error, if any *)
  drawString : string -> option string;
  (** [make([]uint8, n)]: whether the runtime provides a pixel buffer of
      [n] bytes *)
  allocates : Z -> bool;
  (** the platform: the integer a conversion [int(f)] yields for a float64
      that does not fit, which Go leaves to the implementation (amd64
      yields the minimum integer) *)
  unrepresentable : float64 -> Z
}.

Definition checkFfmpegInstalled (w : World) : option error :=
  if negb (ffmpegInPath w) then Some ErrFfmpegNotInstalled
  else if negb (ffprobeInPath w) then Some ErrFfprobeNotInstalled
  else None.

(** Go's conversion [time.Duration(seconds)] of a float64: the fraction is
    discarded.  What a value that does not fit becomes is up to the
    platform. *)
Definition Duration_of_float64 (w : World) (seconds : float64) : Z :=
  match seconds with
  | Finite q =>
      let t := Z.quot (Qnum q) (Zpos (Qden q)) in
      if Int64.in_rangeb t then t else unrepresentable w seconds
  | Inf _ | NaN => unrepresentable w seconds
  end.

Definition readDuration (w : World) : result Z :=
  match ffprobe w with
  | ProbeExit stderr => Err (ErrRunFfprobe stderr)
  | ProbeUnparsable text => Err (ErrParseSeconds text)
  | ProbeSeconds seconds => Ok (Int64.mul Second (Duration_of_float64 w seconds))
  end.

(** ** The timing plan of [MakeThumbnails] *)

(** From [start := opts.From] to [interval := duration / totalTiles]:
    yields [(start, interval, totalTiles)]. *)
Definition timing (opts : ThumbOptions) (duration : Z) : result (Z * Z * Z) :=
  let start := From opts in
  let end_ := if negb (To opts =? 0) then To opts else duration in
  let duration := Int64.sub end_ start in
  if Interval opts >? duration then Err (ErrIntervalLarger duration)
  else
    (totalTiles <-
       (if negb (Interval opts =? 0) then
          if Interval opts >? duration then Err (ErrIntervalLarger duration)
          else Ok (Int64.quot duration (Interval opts))
        else Ok (TileCount opts)) ;;
     if totalTiles =? 0 then Panic DivideByZero
     else Ok (start, Int64.quot duration totalTiles, totalTiles))%go.

(** The loop counter of [for i := 0; i < totalTiles; i++]. *)
Definition indices (totalTiles : Z) : list Z :=
  map Z.of_nat (seq 0 (Z.to_nat totalTiles)).

(** [t := start + time.Duration(i)*interval] *)
Definition sampleTime (start interval i : Z) : Z :=
  Int64.add start (Int64.mul i interval).

(** The timestamps the loop hands to [extractThumbnail], in loop order. *)
Definition samplePlan (opts : ThumbOptions) (duration : Z) : result (list Z) :=
  ('(start, interval, totalTiles) <- timing opts duration ;;
   Ok (map (sampleTime start interval) (indices totalTiles)))%go.

(** ** package strconv, as far as [ParseColor] uses it *)

Module strconv.

Inductive NumError : Type := ErrSyntax | ErrRange.

Definition byte (c : ascii) : Z := Z.of_N (N_of_ascii c).

(** [lower(c) = c | ('x' - 'X')] *)
Definition lower (c : ascii) : Z := Z.lor (byte c) 32.

(** The digit switch in the loop of [ParseUint], for an explicit base
    (no underscores): [None] is the syntax-error exit. *)
Definition digit (base : Z) (c : ascii) : option Z :=
  let d :=
    if (48 <=? byte c) && (byte c <=? 57) then Some (byte c - 48)
    else if (97 <=? lower c) && (lower c <=? 122) then Some (lower c - 97 + 10)
    else None in
  match d with
  | Some d => if d >=? base then None else Some d
  | None => None
  end.

Definition maxUint64 : Z := 2 ^ 64 - 1.

(** The loop of [ParseUint] with [bitSize = 64]; [n] is the accumulator. *)
Fixpoint parseDigits (base : Z) (s : string) (n : Z) : Z * option NumError :=
  match s with
  | EmptyString => (n, None)
  | String c rest =>
      match digit base c with
      | None => (0, Some ErrSyntax)
      | Some d =>
          if n >=? maxUint64 / base + 1 then (maxUint64, Some ErrRange)
          else
            let n1 := n * base + d in
            if n1 >? maxUint64 then (maxUint64, Some ErrRange)
            else parseDigits base rest n1
      end
  end.

(** [ParseUint(s, base, 64)] for [2 <= base <= 36]. *)
Definition ParseUint (s : string) (base : Z) : Z * option NumError :=
  match s with
  | EmptyString => (0, Some ErrSyntax)
  | _ => parseDigits base s 0
  end.

(** [ParseInt(s, base, 64)] for [2 <= base <= 36]: the value and the
    error, both of which the caller receives. *)
Definition ParseInt (s : string) (base : Z) : Z * option NumError :=
  match s with
  | EmptyString => (0, Some ErrSyntax)
  | String c rest =>
      let neg := Ascii.eqb c "-" in
      let s := if Ascii.eqb c "+" || neg then rest else s in
      match ParseUint s base with
      | (_, Some ErrSyntax) => (0, Some ErrSyntax)
      | (un, _) =>
          let cutoff := 2 ^ 63 in
          if negb neg && (un >=? cutoff) then (cutoff - 1, Some ErrRange)
          else if neg && (un >? cutoff) then (- cutoff, Some ErrRange)
          else
            let n := Int64.wrap un in
            (if neg then Int64.wrap (- n) else n, None)
      end
  end.

End strconv.

(** ** ParseColor *)

(** Go's conversion [uint8(x)] of an [int64]. *)
Definition uint8 (x : Z) : Z := x mod 256.

(** [hex[lo:hi]] *)
Definition slice (s : string) (lo hi : nat) : string := substring lo (hi - lo) s.

Definition ParseColor (hex : string) : result Color :=
  if String.eqb hex "transparent" then Ok Transparent
  else
    match hex with
    | EmptyString => Panic IndexOutOfRange
    | String c rest =>
        let hex := if Ascii.eqb c "#" then rest else hex in
        if (String.length hex =? 6)%nat then
          let r := fst (strconv.ParseInt (slice hex 0 2) 16) in
          let g := fst (strconv.ParseInt (slice hex 2 4) 16) in
          let b := fst (strconv.ParseInt (slice hex 4 6) 16) in
          let a := 255 in
          Ok (RGBA (uint8 r) (uint8 g) (uint8 b) (uint8 a))
        else if (String.length hex =? 8)%nat then
          let r := fst (strconv.ParseInt (slice hex 0 2) 16) in
          let g := fst (strconv.ParseInt (slice hex 2 4) 16) in
          let b := fst (strconv.ParseInt (slice hex 4 6) 16) in
          let a := fst (strconv.ParseInt (slice hex 6 8) 16) in
          Ok (RGBA (uint8 r) (uint8 g) (uint8 b) (uint8 a))
        else Err (ErrInvalidHex hex)
    end.

(** ** Thumbnails and their extraction *)

(** The embedded [image.Image] is an interface value: [None] is [nil]. *)
Record Thumbnail : Type := {
  Image : option image;
  Timestamp : Z
}.

Definition extractThumbnail (w : World) (timestamp width height : Z)
  : error + Thumbnail :=
  let '(width, height) :=
    if width =? 0 then (-1, height)
    else if height =? 0 then (width, -1)
    else (width, height) in
  match ffmpeg w (Milliseconds timestamp) width height with
  | FfmpegExit stderr => inl (ErrRunFfmpeg stderr)
  | Undecodable cause => inl (ErrDecodeImage cause)
  | Frame img => inr {| Image := Some img; Timestamp := timestamp |}
  end.

(** ** The result pool ([conc/pool], as [MakeThumbnails] configures it) *)

Record indexedThumb : Type := {
  thumb : Thumbnail;
  Index : Z
}.

(** [indexedThumb{}] *)
Definition zeroIndexedThumb : indexedThumb :=
  {| thumb := {| Image := None; Timestamp := 0 |}; Index := 0 |}.

(** The closure passed to [p.Go] for loop counter [i], run to completion. *)
Definition extractTask (w : World) (opts : ThumbOptions) (start interval i : Z)
  : indexedThumb * option error :=
  let t := sampleTime start interval i in
  match extractThumbnail w t (TileWidth opts) (TileHeight opts) with
  | inl err => (zeroIndexedThumb, Some err)
  | inr th => ({| thumb := th; Index := i |}, None)
  end.

(** The mutable part of a [ResultContextPool]: the aggregated results and
    the collected errors, both appended to as tasks finish. *)
Record Pool : Type := {
  results : list indexedThumb;
  errs : list error
}.

Definition newPool : Pool := {| results := []; errs := [] |}.

(** A task finishing with [(res, err)]: the error pool keeps a non-nil
    [err]; the aggregator keeps [res] when [err] is nil or the pool was
    built [WithCollectErrored]. *)
Definition finish (collectErrored : bool) (p : Pool)
  (r : indexedThumb * option error) : Pool :=
  match snd r with
  | None => {| results := results p ++ [fst r]; errs := errs p |}
  | Some e =>
      {| results := if collectErrored then results p ++ [fst r] else results p;
         errs := errs p ++ [e] |}
  end.

(** [p.Wait()] after the tasks were submitted: [order] lists the positions
    of the tasks in the order in which they finish.  The error is nil or
    the join of the collected errors. *)
Definition Wait (tasks : list (indexedThumb * option error)) (order : list nat)
  : list indexedThumb * option error :=
  let p :=
    fold_left
      (fun p k =>
         match nth_error tasks k with
         | Some r => finish true p r
         | None => p
         end)
      order newPool in
  (results p, match errs p with [] => None | es => Some (ErrJoin es) end).

(** [slices.SortFunc]: the source sorts on a strict order of distinct
    keys, for which every sorting algorithm returns the same list;
    insertion sort stands for it. *)
Fixpoint insertSorted {A : Type} (less : A -> A -> bool) (x : A) (l : list A)
  : list A :=
  match l with
  | [] => [x]
  | y :: l' => if less x y then x :: l else y :: insertSorted less x l'
  end.

Fixpoint SortFunc {A : Type} (less : A -> A -> bool) (l : list A) : list A :=
  match l with
  | [] => []
  | x :: l' => insertSorted less x (SortFunc less l')
  end.

(** ** MakeThumbnails *)

Definition MakeThumbnails (w : World) (order : list nat) (opts : ThumbOptions)
  : result (list Thumbnail) :=
  match Validate opts with
  | Some err => Err (ErrInvalidOptions err)
  | None =>
  match checkFfmpegInstalled w with
  | Some err => Err err
  | None =>
  match readDuration w with
  | Err err => Err (ErrReadDuration err)
  | Panic p => Panic p
  | Ok duration =>
      ('(start, interval, totalTiles) <- timing opts duration ;;
       let tasks := map (extractTask w opts start interval) (indices totalTiles) in
       match Wait tasks order with
       | (_, Some err) => Err err
       | (results, None) =>
           Ok (map thumb (SortFunc (fun a b => Index a <? Index b) results))
       end)%go
  end end end.

(** ** Timestamp labels *)

(** [fmt.Sprintf("%d", n)] for [0 <= n]. *)
Definition decimal (n : Z) : string :=
  NilZero.string_of_uint (N.to_uint (Z.to_N n)).

(** [fmt.Sprintf("%02d", n)]: the sign counts toward the width. *)
Definition fmt02d (n : Z) : string :=
  if n <? 0 then "-" ++ decimal (- n)
  else
    let s := decimal n in
    if (String.length s <? 2)%nat then "0" ++ s else s.

Definition formatDuration (d : Z) : string :=
  let h := Int64.quot d Hour in
  let d := Int64.sub d (Int64.mul h Hour) in
  let m := Int64.quot d Minute in
  let d := Int64.sub d (Int64.mul m Minute) in
  let s := Int64.quot d Second in
  fmt02d h ++ ":" ++ fmt02d m ++ ":" ++ fmt02d s.

(** ** Pixel buffers (package image) *)

(** [image.Rect(0, 0, x1, y1)] puts its corners in order; this is the
    side [Max - Min] it then has along one axis. *)
Definition rectSide (x1 : Z) : Z :=
  if x1 <? 0 then Int64.sub 0 x1 else x1.

(** [mul3NonNeg(x, y, z)]: the product, or -1 when an argument is negative
    or a product leaves the range of [int]. *)
Definition mul3NonNeg (x y z : Z) : Z :=
  if (x <? 0) || (y <? 0) || (z <? 0) then -1
  else if x * y >=? 2 ^ 64 then -1
  else if x * y * z >=? 2 ^ 64 then -1
  else if x * y * z >=? 2 ^ 63 then -1
  else x * y * z.

(** The buffer of [image.NewNRGBA] and [image.NewRGBA] for a rectangle of
    sides [dx] and [dy]: [pixelBufferLength(4, r, ...)] panics on a
    negative length, then [make([]uint8, n)] allocates, which for no byte
    at all cannot fail.  Returns [n]. *)
Definition pixelBuffer (w : World) (dx dy : Z) : result Z :=
  let n := mul3NonNeg 4 dx dy in
  if n <? 0 then Panic HugeDimensions
  else if (n =? 0) || allocates w n then Ok n
  else Panic OutOfMemory.

(** ** Rendering a label *)

(** What [defaultRenderer.Render] and the sequential revision's
    [drawTimestamp] share, from [c.MeasureString] on; [background] is the
    colour handed to [draw.Draw], which asks it for its components unless
    the rectangle to fill is empty. *)
Definition renderLabel (w : World) (background : option Color) (text : string)
  : result image :=
  match measureString w text with
  | MeasureFailed cause => Err (ErrMeasureString cause)
  | Measured tw th =>
      let twPx := Int64.quot tw 256 in
      let thPx := Int64.quot th 256 in
      let padding := 4 in
      let dx := rectSide (Int64.add twPx padding) in
      let dy := rectSide (Int64.add thPx padding) in
      (_ <- pixelBuffer w dx dy ;;
       _ <- (if (dx <=? 0) || (dy <=? 0) then Ok tt
             else match background with
                  | None => Panic NilDereference
                  | Some _ => Ok tt
                  end) ;;
       match drawString w text with
       | Some cause => Err (ErrDrawString cause)
       | None => Ok (Label dx dy background text)
       end)%go
  end.

(** [defaultRenderer]; the font is part of the rasteriser in the world. *)
Record defaultRenderer : Type := {
  FontSizePt : Z;
  BackgroundColor : option Color;
  ForegroundColor : option Color
}.

Definition Render (w : World) (r : defaultRenderer) (text : string)
  : result image :=
  renderLabel w (BackgroundColor r) text.

(** [(t *Thumbnail).overlayTimestamp]: returns the updated [*t]. *)
Definition overlayTimestamp (w : World) (t : Thumbnail) (r : defaultRenderer)
  : result Thumbnail :=
  (textImg <- Render w r (formatDuration (Timestamp t)) ;;
   match Image t with
   | None => Panic NilDereference
   | Some img =>
       let padding := 10 in
       let x := Int64.sub (Int64.sub (Dx img) (Dx textImg)) padding in
       let y := Int64.sub (Int64.sub (Dy img) (Dy textImg)) padding in
       Ok {| Image := Some (Overlaid img textImg x y); Timestamp := Timestamp t |}
   end)%go.

(** ** The contact sheet *)

(** An [imaging] canvas, transparent where nothing was drawn: its bounds
    [[0, Width) x [0, Height)] and the images drawn onto it with their
    top-left corners, oldest first; a later image covers an earlier one
    where they overlap, and an image shows as far as it lies within the
    bounds. *)
Record Canvas : Type := {
  Width : Z;
  Height : Z;
  Pasted : list (image * Z * Z)
}.

(** [imaging.New(width, height, color.RGBA{})]: a non-positive side gives
    the empty image; the fill being the zero colour, the pixels come from
    [image.NewNRGBA(image.Rect(0, 0, width, height))]. *)
Definition New (w : World) (width height : Z) : result Canvas :=
  if (width <=? 0) || (height <=? 0) then
    Ok {| Width := 0; Height := 0; Pasted := [] |}
  else
    (_ <- pixelBuffer w (rectSide width) (rectSide height) ;;
     Ok {| Width := width; Height := height; Pasted := [] |})%go.

(** [pasteRect.Intersect(dst.Bounds()).Empty()] for the rectangle from
    [(x, y)] to [(x1, y1)] and a canvas. *)
Definition missesCanvas (canvas : Canvas) (x y x1 y1 : Z) : bool :=
  (Z.min x1 (Width canvas) <=? Z.max x 0)
  || (Z.min y1 (Height canvas) <=? Z.max y 0).

(** [imaging.Paste(canvas, img, image.Pt(x, y))] for a [Thumbnail]; asking
    a thumbnail without image for its bounds dereferences nil, and an image
    that does not meet the canvas leaves it as it is. *)
Definition Paste (canvas : Canvas) (img : Thumbnail) (x y : Z) : result Canvas :=
  match Image img with
  | None => Panic NilDereference
  | Some im =>
      if missesCanvas canvas x y (Int64.add x (Dx im)) (Int64.add y (Dy im)) then
        Ok canvas
      else
        Ok {| Width := Width canvas; Height := Height canvas;
              Pasted := Pasted canvas ++ [(im, x, y)] |}
  end.

(** What [slog.Error] receives in [makeContactSheet]. *)
Inductive LogRecord : Type :=
| FailedToOverlay (timestamp : Z) (err : error).

(** [int(math.Ceil(float64(count) / float64(columns)))].  The quotient is
    taken exactly: for [count < 2^53] the rounded float64 quotient has the
    same ceiling.  A zero divisor gives an infinity, or NaN for [0 / 0];
    what the conversion makes of these, and of a ceiling out of range, is
    up to the platform. *)
Definition rowCount (w : World) (count columns : Z) : Z :=
  if columns =? 0 then
    unrepresentable w (if count =? 0 then NaN else Inf (count <? 0))
  else
    let r := Qceiling (inject_Z count / inject_Z columns) in
    if Int64.in_rangeb r then r else unrepresentable w (Finite (inject_Z r)).

(** [padding + k*tile + k*padding], the corner coordinate of grid line [k]. *)
Definition corner (padding tile k : Z) : Z :=
  Int64.add (Int64.add padding (Int64.mul k tile)) (Int64.mul k padding).

(** One iteration of [for i, img := range thumbs]. *)
Definition placeTile (w : World) (opts : ThumbOptions) (renderer : defaultRenderer)
  (tileWidth tileHeight : Z) (st : Canvas * list LogRecord) (i : Z) (img : Thumbnail)
  : result (Canvas * list LogRecord) :=
  let '(canvas, log) := st in
  if TileColumns opts =? 0 then Panic DivideByZero
  else
    let row := Int64.quot i (TileColumns opts) in
    let col := Int64.rem i (TileColumns opts) in
    let x := corner (Padding opts) tileWidth col in
    let y := corner (Padding opts) tileHeight row in
    if OverlayTimestamps opts then
      match overlayTimestamp w img renderer with
      | Err err => Ok (canvas, (log ++ [FailedToOverlay (Timestamp img) err])%list)
      | Panic p => Panic p
      | Ok img' => (canvas' <- Paste canvas img' x y ;; Ok (canvas', log))%go
      end
    else (canvas' <- Paste canvas img x y ;; Ok (canvas', log))%go.

Fixpoint placeTiles (w : World) (opts : ThumbOptions) (renderer : defaultRenderer)
  (tileWidth tileHeight : Z) (st : Canvas * list LogRecord) (i : Z)
  (thumbs : list Thumbnail) : result (Canvas * list LogRecord) :=
  match thumbs with
  | [] => Ok st
  | img :: rest =>
      (st' <- placeTile w opts renderer tileWidth tileHeight st i img ;;
       placeTiles w opts renderer tileWidth tileHeight st' (i + 1) rest)%go
  end.

(** Returns the canvas together with the records logged on the way. *)
Definition makeContactSheet (w : World) (thumbs : list Thumbnail) (opts : ThumbOptions)
  : result (Canvas * list LogRecord) :=
  let rows := rowCount w (Z.of_nat (List.length thumbs)) (TileColumns opts) in
  match thumbs with
  | [] => Panic IndexOutOfRange
  | first :: _ =>
      match Image first with
      | None => Panic NilDereference
      | Some img0 =>
          let tileWidth := Dx img0 in
          let tileHeight := Dy img0 in
          let w_ := Int64.add (Int64.mul tileWidth (TileColumns opts))
                      (Int64.mul (Int64.add (TileColumns opts) 1) (Padding opts)) in
          let h_ := Int64.add (Int64.mul tileHeight rows)
                      (Int64.mul (Int64.add rows 1) (Padding opts)) in
          (canvas <- New w w_ h_ ;;
           let renderer := {| FontSizePt := 12;
                              BackgroundColor := TimestampBackground opts;
                              ForegroundColor := Some White |} in
           placeTiles w opts renderer tileWidth tileHeight (canvas, []) 0 thumbs)%go
      end
  end.

Definition Generate (w : World) (order : list nat) (opts : ThumbOptions)
  : result (Canvas * list LogRecord) :=
  match MakeThumbnails w order opts with
  | Err err => Err (ErrMakeThumbnails err)
  | Panic p => Panic p
  | Ok thumbs =>
      if (List.length thumbs =? 0)%nat then Err ErrZeroImages
      else makeContactSheet w thumbs opts
  end.

(** ** The sequential revision (pkg/thumber/thumber.go)

    The revision kept under [pkg/thumber/thumber.go] extracts the frames
    one after the other, burns the label in while extracting, and truncates
    the probed duration to whole seconds.  Its option checks, prober and
    timing arithmetic are the ones above. *)

Module Sequential.

(** [(time.Duration).Truncate] *)
Definition Truncate (d m : Z) : Z :=
  if m <=? 0 then d else Int64.sub d (Int64.rem d m).

Definition extractThumbnail (w : World) (timestamp width height : Z)
  : error + image :=
  let '(width, height) :=
    if width =? 0 then (-1, height)
    else if height =? 0 then (width, -1)
    else (width, height) in
  match ffmpeg w (Milliseconds timestamp) width height with
  | FfmpegExit stderr => inl (ErrRunFfmpeg stderr)
  | Undecodable cause => inl (ErrDecodeImage cause)
  | Frame img => inr img
  end.

(** Fills the label with [image.Black]. *)
Definition drawTimestamp (w : World) (timestamp : string) : result image :=
  renderLabel w (Some Black) timestamp.

(** The body of [for i := 0; i < totalTiles; i++]: the image to append,
    [None] being [continue]. *)
Definition extractOne (w : World) (opts : ThumbOptions) (start interval i : Z)
  : result (option image) :=
  let t := sampleTime start interval i in
  match extractThumbnail w t (TileWidth opts) (TileHeight opts) with
  | inl _ => Ok None
  | inr img =>
      if OverlayTimestamps opts then
        match drawTimestamp w (formatDuration t) with
        | Ok tsImage =>
            Ok (Some (Overlaid img tsImage
                        (Int64.sub (Int64.sub (Dx img) (Dx tsImage)) 10)
                        (Int64.sub (Int64.sub (Dy img) (Dy tsImage)) 10)))
        | Err _ => Ok None
        | Panic p => Panic p
        end
      else Ok (Some img)
  end.

(** The loop over the counters [ks], appending to [thumbnails]. *)
Fixpoint extractAll (w : World) (opts : ThumbOptions) (start interval : Z)
  (ks : list Z) (thumbnails : list image) : result (list image) :=
  match ks with
  | [] => Ok thumbnails
  | i :: rest =>
      (img <- extractOne w opts start interval i ;;
       extractAll w opts start interval rest
         (match img with
          | Some img => thumbnails ++ [img]
          | None => thumbnails
          end))%go
  end.

Definition MakeThumbnails (w : World) (opts : ThumbOptions) : result (list image) :=
  match Validate opts with
  | Some err => Err (ErrInvalidOptions err)
  | None =>
  match checkFfmpegInstalled w with
  | Some err => Err err
  | None =>
  match readDuration w with
  | Err err => Err (ErrReadDuration err)
  | Panic p => Panic p
  | Ok duration =>
      let duration := Truncate duration Second in
      ('(start, interval, totalTiles) <- timing opts duration ;;
       extractAll w opts start interval (indices totalTiles) [])%go
  end end end.

End Sequential.

(** ** The command line (cmd/thumber/main.go) *)

Module cli.

(** The errors of [cliArgs.Run] and [Duration.Duration]; [%q] arguments
    are kept unquoted. *)
Inductive cliError : Type :=
| ErrInvalidDuration (quoted : string) (part : string)
| ErrInvalidFrom (cause : cliError)
| ErrInvalidTo (cause : cliError)
| ErrInvalidOverlayBackground (cause : error)
| ErrGenerateThumbnails (cause : error).

Inductive outcome (A : Type) : Type :=
| Done (a : A)
| Fail (e : cliError)
| Crash (p : panic).

Arguments Done {A} a.
Arguments Fail {A} e.
Arguments Crash {A} p.

(** [s[i] = x] on a slice; [None] is the index-out-of-range panic. *)
Fixpoint store {A : Type} (s : list A) (i : nat) (x : A) : option (list A) :=
  match s, i with
  | [], _ => None
  | _ :: s', O => Some (x :: s')
  | y :: s', S i' => option_map (cons y) (store s' i' x)
  end.

(** [s[i], s[j] = s[j], s[i]] *)
Definition swap {A : Type} (s : list A) (i j : Z) : option (list A) :=
  if (i <? 0) || (j <? 0) then None
  else
    match nth_error s (Z.to_nat i), nth_error s (Z.to_nat j) with
    | Some a, Some b =>
        match store s (Z.to_nat i) b with
        | Some s' => store s' (Z.to_nat j) a
        | None => None
        end
    | _, _ => None
    end.

(** The loop of [reverse], at most [fuel] iterations. *)
Fixpoint reverseLoop {A : Type} (fuel : nat) (s : list A) (i j : Z)
  : option (list A) :=
  if i <? j then
    match fuel with
    | O => None
    | S fuel' =>
        match swap s i j with
        | Some s' => reverseLoop fuel' s' (i + 1) (j - 1)
        | None => None
        end
    end
  else Some s.

(** [reverse]: the slice after the in-place swaps; [None] would be a
    panic.  The loop runs fewer than [len(s)] times. *)
Definition reverse {A : Type} (s : list A) : option (list A) :=
  reverseLoop (List.length s) s 0 (Z.of_nat (List.length s) - 1).

(** [strings.Split(s, ":")] *)
Fixpoint Split (s : string) : list string :=
  match s with
  | EmptyString => [EmptyString]
  | String c rest =>
      if Ascii.eqb c ":" then EmptyString :: Split rest
      else
        match Split rest with
        | part :: parts => String c part :: parts
        | [] => [String c EmptyString]
        end
  end.

(** [strconv.Atoi] on a 64-bit platform: the value and error of
    [ParseInt(s, 10, 0)]. *)
Definition Atoi (s : string) : Z * option strconv.NumError :=
  strconv.ParseInt s 10.

(** [parts[i]] for an [int] index. *)
Definition index (parts : list string) (i : Z) : option string :=
  if i <? 0 then None else nth_error parts (Z.to_nat i).

(** For the statements: what [Atoi] makes of the [k]-th component counted
    from the right ([k = 0]: seconds, [1]: minutes, [2]: hours), an absent
    component counting as 0. *)
Definition component (comps : list string) (k : nat) : Z * option strconv.NumError :=
  match nth_error (rev comps) k with
  | Some part => Atoi part
  | None => (0, None)
  end.

Section Duration.

(** [time.ParseDuration] (the duration when [err == nil]) and
    [strings.TrimSpace] belong to the standard library. *)
Variable ParseDuration : string -> option Z.
Variable TrimSpace : string -> string.

(** The colon-separated reading, from [var hour, minute, second int] on. *)
Definition fromParts (parts : list string) : outcome Z :=
  let len := Z.of_nat (List.length parts) in
  let hourStep :=
    if len >? 2 then
      match index parts 2, index parts 0 with
      | Some p2, Some p0 =>
          match Atoi p2 with
          | (hour, None) => Done hour
          | (_, Some _) => Fail (ErrInvalidDuration p0 "hour")
          end
      | _, _ => Crash IndexOutOfRange
      end
    else Done 0 in
  match hourStep with
  | Fail e => Fail e
  | Crash p => Crash p
  | Done hour =>
  let minuteStep :=
    if len >? 1 then
      match index parts 1 with
      | Some p1 =>
          match Atoi p1 with
          | (minute, None) => Done minute
          | (_, Some _) => Fail (ErrInvalidDuration p1 "minute")
          end
      | None => Crash IndexOutOfRange
      end
    else Done 0 in
  match minuteStep with
  | Fail e => Fail e
  | Crash p => Crash p
  | Done minute =>
  let secondStep :=
    if len >? 0 then
      match index parts 0 with
      | Some p0 =>
          match Atoi p0 with
          | (second, None) => Done second
          | (second, Some _) =>
              match index parts second with
              | Some quoted => Fail (ErrInvalidDuration quoted "second")
              | None => Crash IndexOutOfRange
              end
          end
      | None => Crash IndexOutOfRange
      end
    else Done 0 in
  match secondStep with
  | Fail e => Fail e
  | Crash p => Crash p
  | Done second =>
      Done (Int64.add
              (Int64.add (Int64.mul hour Hour) (Int64.mul minute Minute))
              (Int64.mul second Second))
  end end end.

(** [(d Duration).Duration()] *)
Definition Duration (d : string) : outcome Z :=
  if String.eqb d "" then Done 0
  else
    match ParseDuration d with
    | Some v => Done v
    | None =>
        match reverse (Split (TrimSpace d)) with
        | Some parts => fromParts parts
        | None => Crash IndexOutOfRange
        end
    end.

(** The fields of [cliArgs] that [Run] reads before it writes the file;
    [From], [To], [TileWidth], [TileHeight], [Padding] and
    [OverlayTimestamps] carry the prefix [arg] here. *)
Record cliArgs : Type := {
  VideoPath : string;
  argFrom : string;
  argTo : string;
  argTileWidth : Z;
  argTileHeight : Z;
  Columns : Z;
  IntervalSeconds : Z;
  argPadding : Z;
  argOverlayTimestamps : bool;
  OverlayBackground : string
}.

(** The options [Run] builds once the three arguments have parsed. *)
Definition optionsOf (a : cliArgs) (from to : Z) (color : Color) : ThumbOptions :=
  {| From := from;
     To := to;
     TileColumns := Columns a;
     TileCount := 0;
     Interval := Int64.mul Second (IntervalSeconds a);
     TileWidth := argTileWidth a;
     TileHeight := argTileHeight a;
     OverlayTimestamps := argOverlayTimestamps a;
     TimestampBackground := Some color;
     Padding := argPadding a |}.

(** [cliArgs.Run] up to the image it hands to [jpeg.Encode]; the world is
    the one of the video at [VideoPath]. *)
Definition Run (w : World) (order : list nat) (a : cliArgs)
  : outcome (Canvas * list LogRecord) :=
  match Duration (argFrom a) with
  | Fail e => Fail (ErrInvalidFrom e)
  | Crash p => Crash p
  | Done from =>
  match Duration (argTo a) with
  | Fail e => Fail (ErrInvalidTo e)
  | Crash p => Crash p
  | Done to =>
  match ParseColor (OverlayBackground a) with
  | Err e => Fail (ErrInvalidOverlayBackground e)
  | Panic p => Crash p
  | Ok color =>
  match Generate w order (optionsOf a from to color) with
  | Err e => Fail (ErrGenerateThumbnails e)
  | Panic p => Crash p
  | Ok img => Done img
  end end end end.

End Duration.

End cli.

(** ** package version *)

Module version.

Record VersionInfo : Type := {
  Commit : string;
  CommitTime : string
}.

(** [(v VersionInfo).String()] *)
Definition VersionInfo_String (v : VersionInfo) : string :=
  CommitTime v ++ "." ++ Commit v.

(** A [debug.BuildSetting]. *)
Record BuildSetting : Type := {
  Key : string;
  Value : string
}.

Section GitVersion.

(** [time.Parse(time.RFC3339, v)] followed by [Format("20060102150405")];
    the earlier revision of the file stores the value as it is. *)
Variable stamp : string -> string.

(** The loop over [build.Settings]; [None] is the panic of
    [setting.Value[:7]] on a value shorter than seven bytes. *)
Fixpoint readSettings (settings : list BuildSetting) (info : VersionInfo)
  : option VersionInfo :=
  match settings with
  | [] => Some info
  | setting :: rest =>
      if String.eqb (Key setting) "vcs.revision" then
        if (String.length (Value setting) <? 7)%nat then None
        else
          readSettings rest
            {| Commit := slice (Value setting) 0 7; CommitTime := CommitTime info |}
      else if String.eqb (Key setting) "vcs.time" then
        readSettings rest
          {| Commit := Commit info; CommitTime := stamp (Value setting) |}
      else readSettings rest info
  end.

(** [GitVersion]; [build] is the result of [debug.ReadBuildInfo], [None]
    when it is not ok. *)
Definition GitVersion (build : option (list BuildSetting)) : option VersionInfo :=
  let info := {| Commit := ""; CommitTime := "" |} in
  match build with
  | Some settings => readSettings settings info
  | None => Some info
  end.

End GitVersion.

End version.

(** ** Vocabulary of the statements *)

(** [end] and [duration = end - start] as the planner reads them off the
    options and the probed duration, before any wrap-around. *)
Definition sampleEnd (opts : ThumbOptions) (duration : Z) : Z :=
  if To opts =? 0 then duration else To opts.

Definition window (opts : ThumbOptions) (duration : Z) : Z :=
  sampleEnd opts duration - From opts.

(** What the task at position [k] of [tasks] contributes to the pool when
    it finishes. *)
Definition resultOf (tasks : list (indexedThumb * option error)) (k : nat)
  : list indexedThumb :=
  match nth_error tasks k with
  | Some r => [fst r]
  | None => []
  end.

Definition errorOf (tasks : list (indexedThumb * option error)) (k : nat)
  : list error :=
  match nth_error tasks k with
  | Some (_, Some e) => [e]
  | _ => []
  end.

(** The extraction the task for loop counter [i] performs. *)
Definition extractAt (w : World) (opts : ThumbOptions) (start interval i : Z)
  : error + Thumbnail :=
  extractThumbnail w (sampleTime start interval i) (TileWidth opts) (TileHeight opts).

(** The causes of the failed extractions among the loop counters [ks]. *)
Definition failures (w : World) (opts : ThumbOptions) (start interval : Z)
  (ks : list Z) : list error :=
  flat_map (fun i => match extractAt w opts start interval i with
                     | inl e => [e]
                     | inr _ => []
                     end) ks.

(** The thumbnail of loop counter [i], when its extraction succeeds. *)
Definition thumbAt (w : World) (opts : ThumbOptions) (start interval i : Z)
  : Thumbnail :=
  match extractAt w opts start interval i with
  | inr th => th
  | inl _ => thumb zeroIndexedThumb
  end.

Definition indexedAt (w : World) (opts : ThumbOptions) (start interval : Z)
  (k : nat) : indexedThumb :=
  {| thumb := thumbAt w opts start interval (Z.of_nat k); Index := Z.of_nat k |}.

(** The value of a hexadecimal digit, of either case: the bytes
    ['0'..'9'], ['a'..'f'] and ['A'..'F']. *)
Definition hexValue (c : ascii) : option Z :=
  let b := Z.of_N (N_of_ascii c) in
  if (48 <=? b) && (b <=? 57) then Some (b - 48)
  else if (97 <=? b) && (b <=? 102) then Some (b - 87)
  else if (65 <=? b) && (b <=? 70) then Some (b - 55)
  else None.

Definition hexByte (hi lo : ascii) : option Z :=
  match hexValue hi, hexValue lo with
  | Some x, Some y => Some (16 * x + y)
  | _, _ => None
  end.

Definition allHex (s : string) : bool :=
  forallb (fun c => match hexValue c with Some _ => true | None => false end)
    (list_ascii_of_string s).

(** The input without one leading hash sign. *)
Definition stripHash (s : string) : string :=
  match s with
  | String "#" rest => rest
  | _ => s
  end.

(** Colour parsing as the specification words it: the transparent token,
    six hex digits (opaque RGB) or eight hex digits (RGBA), with or without
    a leading hash sign; anything else is an invalid colour. *)
Definition specColor (hex : string) : result Color :=
  if String.eqb hex "transparent" then Ok Transparent
  else
    let invalid := Err (ErrInvalidHex (stripHash hex)) in
    match stripHash hex with
    | String r1 (String r2 (String g1 (String g2 (String b1 (String b2 rest))))) =>
        match rest with
        | EmptyString =>
            match hexByte r1 r2, hexByte g1 g2, hexByte b1 b2 with
            | Some r, Some g, Some b => Ok (RGBA r g b 255)
            | _, _, _ => invalid
            end
        | String a1 (String a2 EmptyString) =>
            match hexByte r1 r2, hexByte g1 g2, hexByte b1 b2, hexByte a1 a2 with
            | Some r, Some g, Some b, Some a => Ok (RGBA r g b a)
            | _, _, _, _ => invalid
            end
        | _ => invalid
        end
    | _ => invalid
    end.

(** What a two-byte channel reads as once the errors of [strconv.ParseInt]
    are dropped and the value is cut to a byte: two hex digits give their
    value; a sign and a hex digit give the digit, negated modulo 256 under
    a minus sign; any other two bytes give 0. *)
Definition channelValue (hi lo : ascii) : Z :=
  match hexValue hi, hexValue lo with
  | Some x, Some y => 16 * x + y
  | None, Some y =>
      if Ascii.eqb hi "+" then y
      else if Ascii.eqb hi "-" then (- y) mod 256
      else 0
  | _, None => 0
  end.

(** Colour parsing as the amended claim words it: the length alone
    decides between a colour and the invalid-colour error, and each
    channel reads as [channelValue] has it. *)
Definition lenientColor (hex : string) : result Color :=
  if String.eqb hex "transparent" then Ok Transparent
  else
    let body := stripHash hex in
    match list_ascii_of_string body with
    | [r1; r2; g1; g2; b1; b2] =>
        Ok (RGBA (channelValue r1 r2) (channelValue g1 g2) (channelValue b1 b2) 255)
    | [r1; r2; g1; g2; b1; b2; a1; a2] =>
        Ok (RGBA (channelValue r1 r2) (channelValue g1 g2) (channelValue b1 b2)
              (channelValue a1 a2))
    | _ => Err (ErrInvalidHex body)
    end.

(** The tile count the planner works with: the one of the options, or
    the quotient of the window by the interval when an interval is set. *)
Definition effectiveTiles (opts : ThumbOptions) (duration : Z) : Z :=
  if Interval opts =? 0 then TileCount opts
  else Z.quot (window opts duration) (Interval opts).

(** The renderer [makeContactSheet] builds from the options. *)
Definition sheetRenderer (opts : ThumbOptions) : defaultRenderer :=
  {| FontSizePt := 12;
     BackgroundColor := TimestampBackground opts;
     ForegroundColor := Some White |}.

(** Whether the pixel buffer of an image of sides [dx] and [dy] can be
    made. *)
Definition buffered (w : World) (dx dy : Z) : bool :=
  match pixelBuffer w dx dy with
  | Ok _ => true
  | _ => false
  end.

(** Whether the pixel buffer of the label for [text] can be made; a text
    that cannot be measured needs none. *)
Definition labelBuffer (w : World) (text : string) : bool :=
  match measureString w text with
  | MeasureFailed _ => true
  | Measured tw th =>
      buffered w (rectSide (Int64.add (Int64.quot tw 256) 4))
                 (rectSide (Int64.add (Int64.quot th 256) 4))
  end.

(** The label of a thumbnail as the compositor renders it. *)
Definition labelOf (w : World) (opts : ThumbOptions) (t : Thumbnail) : result image :=
  Render w (sheetRenderer opts) (formatDuration (Timestamp t)).

(** What the compositor has in hand to paste for a thumbnail: its image,
    with the label overlaid when overlays are on, or nothing when the label
    could not be rendered. *)
Definition labelled (w : World) (opts : ThumbOptions) (t : Thumbnail) : option image :=
  match Image t with
  | None => None
  | Some img =>
      if OverlayTimestamps opts then
        match labelOf w opts t with
        | Ok label =>
            Some (Overlaid img label
                    (Int64.sub (Int64.sub (Dx img) (Dx label)) 10)
                    (Int64.sub (Int64.sub (Dy img) (Dy label)) 10))
        | _ => None
        end
      else Some img
  end.

(** The labels of [thumbs] render without a panic: with overlays on, the
    background colour is not nil and the pixel buffer of every label can
    be made. *)
Definition labelsRender (w : World) (opts : ThumbOptions) (thumbs : list Thumbnail)
  : Prop :=
  OverlayTimestamps opts = true ->
  TimestampBackground opts <> None /\
  Forall (fun t => labelBuffer w (formatDuration (Timestamp t)) = true) thumbs.

(** The record logged for a thumbnail whose label could not be rendered. *)
Definition labelFailure (w : World) (opts : ThumbOptions) (t : Thumbnail)
  : list LogRecord :=
  if OverlayTimestamps opts then
    match labelOf w opts t with
    | Err e => [FailedToOverlay (Timestamp t) e]
    | _ => []
    end
  else [].

(** The sides of the canvas as [makeContactSheet] computes them, in
    [int] arithmetic, for a first tile of [tw] by [th] and [n] thumbnails. *)
Definition sheetWidth (opts : ThumbOptions) (tw : Z) : Z :=
  Int64.wrap (TileColumns opts * tw + (TileColumns opts + 1) * Padding opts).

Definition sheetHeight (w : World) (opts : ThumbOptions) (th n : Z) : Z :=
  let rows := rowCount w n (TileColumns opts) in
  Int64.wrap (rows * th + (rows + 1) * Padding opts).

(** The sides the specification gives the canvas: [c*tw + (c+1)*p] and
    [rows*th + (rows+1)*p]. *)
Definition gridWidth (opts : ThumbOptions) (tw : Z) : Z :=
  TileColumns opts * tw + (TileColumns opts + 1) * Padding opts.

Definition gridHeight (w : World) (opts : ThumbOptions) (th n : Z) : Z :=
  let rows := rowCount w n (TileColumns opts) in
  rows * th + (rows + 1) * Padding opts.

(** The thumbnail holds an image of [tw] by [th] pixels. *)
Definition uniform (tw th : Z) (t : Thumbnail) : Prop :=
  exists img, Image t = Some img /\ Dx img = tw /\ Dy img = th.

(** The thumbnails with their loop counters, counting from [a]. *)
Definition indexed (a : nat) (thumbs : list Thumbnail) : list (Z * Thumbnail) :=
  combine (map Z.of_nat (seq a (List.length thumbs))) thumbs.

(** Whether an image drawn with its corner at [(x, y)] meets the canvas,
    so that [imaging.Paste] draws it. *)
Definition meets (canvas : Canvas) (tile : image * Z * Z) : bool :=
  let '(img, x, y) := tile in
  negb (missesCanvas canvas x y (Int64.add x (Dx img)) (Int64.add y (Dy img))).

(** The canvas with the ones of [tiles] drawn that meet it. *)
Definition withTiles (canvas : Canvas) (tiles : list (image * Z * Z)) : Canvas :=
  {| Width := Width canvas; Height := Height canvas;
     Pasted := Pasted canvas ++ filter (meets canvas) tiles |}.

(** A drawn image lies within bounds of the given sides. *)
Definition inside (width height : Z) (tile : image * Z * Z) : Prop :=
  let '(img, x, y) := tile in
  0 <= x /\ x + Dx img <= width /\ 0 <= y /\ y + Dy img <= height.

(** Two drawn images share no pixel: one ends where the other begins,
    along one axis. *)
Definition apart (a b : image * Z * Z) : bool :=
  let '(ia, xa, ya) := a in
  let '(ib, xb, yb) := b in
  (xa + Dx ia <=? xb) || (xb + Dx ib <=? xa)
  || (ya + Dy ia <=? yb) || (yb + Dy ib <=? ya).

(** The tile the loop pastes for counter [i], at the corner the code
    computes for it. *)
Definition tileAt (w : World) (opts : ThumbOptions) (tileWidth tileHeight : Z)
  (it : Z * Thumbnail) : list (image * Z * Z) :=
  match labelled w opts (snd it) with
  | Some img =>
      [(img,
        corner (Padding opts) tileWidth (Int64.rem (fst it) (TileColumns opts)),
        corner (Padding opts) tileHeight (Int64.quot (fst it) (TileColumns opts)))]
  | None => []
  end.

(** The tile for counter [i] at the corner the specification gives it:
    [x = p + (i mod c)*(tw+p)], [y = p + (i / c)*(th+p)]. *)
Definition gridTile (w : World) (opts : ThumbOptions) (tw th : Z)
  (it : Z * Thumbnail) : list (image * Z * Z) :=
  match labelled w opts (snd it) with
  | Some img =>
      [(img,
        Padding opts + (fst it mod TileColumns opts) * (tw + Padding opts),
        Padding opts + (fst it / TileColumns opts) * (th + Padding opts))]
  | None => []
  end.

(** The decimal digit [k] as a byte, and a number below 100 as two digits. *)
Definition digitChar (k : Z) : ascii := ascii_of_N (Z.to_N (48 + k)).

Definition twoDigits (n : Z) : string :=
  String (digitChar (n / 10)) (String (digitChar (n mod 10)) EmptyString).

(** ** Sample inputs *)

Definition options (from to tileCount interval : Z) : ThumbOptions :=
  {| From := from; To := to; TileColumns := 3; TileCount := tileCount;
     Interval := interval; TileWidth := 540; TileHeight := 0;
     OverlayTimestamps := false; TimestampBackground := Some Transparent;
     Padding := 10 |}.

(** An amd64 machine on which every label measures 58 by 14 pixels (a
    label of 62x18) and which provides pixel buffers of up to 1 GiB. *)
Definition machine (probe : ProbeOutput) (frames : Z -> Z -> Z -> FrameOutput)
  (draw : string -> option string) : World :=
  {| ffmpegInPath := true; ffprobeInPath := true;
     ffprobe := probe;
     ffmpeg := frames;
     measureString := fun _ => Measured (58 * 256) (14 * 256);
     drawString := draw;
     allocates := fun n => n <=? 2 ^ 30;
     unrepresentable := fun _ => Int64.min |}.

(** A video of [seconds] seconds all of whose frames decode to 540x304;
    the frame sought at millisecond [ms] has content [ms]. *)
Definition video (seconds : Q) : World :=
  machine (ProbeSeconds (Finite seconds))
    (fun ms _ _ => Frame (Raster 540 304 ms)) (fun _ => None).

(** The same video with an [ffmpeg] that always exits with an error. *)
Definition brokenVideo (seconds : Q) : World :=
  machine (ProbeSeconds (Finite seconds))
    (fun _ _ _ => FfmpegExit "exit status 1") (fun _ => None).

(** A video whose frames before millisecond [ms0] cannot be extracted. *)
Definition damagedVideo (seconds : Q) (ms0 : Z) : World :=
  machine (ProbeSeconds (Finite seconds))
    (fun ms _ _ => if ms <? ms0 then FfmpegExit "exit status 1"
                   else Frame (Raster 540 304 ms))
    (fun _ => None).


Definition tile (ms : Z) : Thumbnail :=
  {| Image := Some (Raster 540 304 ms); Timestamp := ms * Millisecond |}.

(** Seven tiles sampled one second apart. *)
Definition sevenTiles : list Thumbnail :=
  map (fun k => tile (1000 * Z.of_nat k)) (seq 0 7).



(** Overlays asked for with the background colour left nil. *)
Definition nilBackground : ThumbOptions :=
  {| From := 0; To := 0; TileColumns := 3; TileCount := 0;
     Interval := 60 * Second; TileWidth := 540; TileHeight := 0;
     OverlayTimestamps := true; TimestampBackground := None;
     Padding := 10 |}.

(** The arguments as the flags' defaults give them, for the video of a
    world, with the interval, the stopping point and the background to
    choose. *)
Definition defaultArgs (to : string) (intervalSeconds : Z) (background : string)
  : cli.cliArgs :=
  {| cli.VideoPath := "video.mp4"; cli.argFrom := "10"; cli.argTo := to;
     cli.argTileWidth := 540; cli.argTileHeight := 0; cli.Columns := 3;
     cli.IntervalSeconds := intervalSeconds; cli.argPadding := 0;
     cli.argOverlayTimestamps := false; cli.OverlayBackground := background |}.

(** * Properties *)

(** Closed side conditions are settled by evaluation. *)
Ltac evaluate :=
  vm_compute; repeat split; solve [reflexivity | discriminate].

(** ** Wrap-around arithmetic *)

Module Int64Facts.

Lemma wrap_id (z : Z) : Int64.in_range z -> Int64.wrap z = z.
Proof.
  unfold Int64.in_range, Int64.min, Int64.max, Int64.wrap. intros H.
  rewrite Z.mod_small; lia.
Qed.

Lemma wrap_range (z : Z) : Int64.in_range (Int64.wrap z).
Proof.
  unfold Int64.in_range, Int64.min, Int64.max, Int64.wrap.
  pose proof (Z.mod_pos_bound (z + 2 ^ 63) (2 ^ 64) ltac:(lia)). lia.
Qed.

Lemma in_rangeb_spec (z : Z) : Int64.in_rangeb z = true <-> Int64.in_range z.
Proof.
  unfold Int64.in_rangeb, Int64.in_range.
  rewrite andb_true_iff, !Z.leb_le. tauto.
Qed.

(** Wrapping only depends on the residue modulo [2^64]. *)
Lemma wrap_congr (a b : Z) :
  a mod 2 ^ 64 = b mod 2 ^ 64 -> Int64.wrap a = Int64.wrap b.
Proof.
  intros H. unfold Int64.wrap. f_equal.
  rewrite <- (Zplus_mod_idemp_l a), <- (Zplus_mod_idemp_l b), H. reflexivity.
Qed.

Lemma wrap_mod (a : Z) : Int64.wrap a mod 2 ^ 64 = a mod 2 ^ 64.
Proof.
  unfold Int64.wrap.
  rewrite Zminus_mod, Zmod_mod, <- Zminus_mod.
  f_equal. lia.
Qed.

Lemma add_wrap_l (a b : Z) : Int64.wrap (Int64.wrap a + b) = Int64.wrap (a + b).
Proof.
  apply wrap_congr. rewrite <- Zplus_mod_idemp_l, wrap_mod, Zplus_mod_idemp_l.
  reflexivity.
Qed.

Lemma add_wrap_r (a b : Z) : Int64.wrap (a + Int64.wrap b) = Int64.wrap (a + b).
Proof. rewrite Z.add_comm, add_wrap_l. f_equal. lia. Qed.

Lemma mul_wrap_l (a b : Z) : Int64.wrap (Int64.wrap a * b) = Int64.wrap (a * b).
Proof.
  apply wrap_congr. rewrite <- Zmult_mod_idemp_l, wrap_mod, Zmult_mod_idemp_l.
  reflexivity.
Qed.

Lemma quot_nonneg (a b : Z) :
  0 <= a <= Int64.max -> 0 < b -> Int64.quot a b = a / b.
Proof.
  intros Ha Hb. unfold Int64.quot.
  rewrite Z.quot_div_nonneg by lia.
  apply wrap_id. unfold Int64.in_range, Int64.min, Int64.max in *.
  pose proof (Z.div_pos a b ltac:(lia) Hb).
  pose proof (Z.div_le_upper_bound a b a Hb ltac:(nia)). lia.
Qed.

End Int64Facts.

(** ** The timing plan *)

Section Timing.

Variables (opts : ThumbOptions) (duration : Z).

Let win := window opts duration.

Hypothesis win_fits : Int64.in_range win.

Lemma timing_window :
  Int64.sub (if negb (To opts =? 0) then To opts else duration) (From opts) = win.
Proof.
  pose proof win_fits as Hf.
  unfold Int64.sub, win, window, sampleEnd in Hf |- *.
  destruct (To opts =? 0); simpl; apply Int64Facts.wrap_id; exact Hf.
Qed.

Lemma timing_rejects : win < Interval opts -> timing opts duration = Err (ErrIntervalLarger win).
Proof.
  intros H. unfold timing. rewrite timing_window.
  destruct (Z.gtb_spec (Interval opts) win); [reflexivity | lia].
Qed.

Lemma timing_by_count :
  Interval opts = 0 -> 0 <= win -> TileCount opts <> 0 ->
  timing opts duration
  = Ok (From opts, Int64.quot win (TileCount opts), TileCount opts).
Proof.
  intros Hi Hw Hn. unfold timing. rewrite timing_window, Hi.
  destruct (Z.gtb_spec 0 win); [lia |]. simpl.
  destruct (Z.eqb_spec (TileCount opts) 0); [contradiction | reflexivity].
Qed.

Lemma timing_by_zero_count :
  Interval opts = 0 -> 0 <= win -> TileCount opts = 0 ->
  timing opts duration = Panic DivideByZero.
Proof.
  intros Hi Hw Hn. unfold timing. rewrite timing_window, Hi, Hn.
  destruct (Z.gtb_spec 0 win); [lia | reflexivity].
Qed.

Lemma interval_tiles_pos : 0 < Interval opts <= win -> 1 <= win / Interval opts.
Proof.
  intros H. apply Z.div_le_lower_bound; lia.
Qed.

Lemma timing_by_interval :
  0 < Interval opts <= win ->
  timing opts duration
  = Ok (From opts, win / (win / Interval opts), win / Interval opts).
Proof.
  intros H. pose proof (interval_tiles_pos H) as Ht.
  assert (Hmax : win <= Int64.max) by (destruct win_fits; assumption).
  unfold timing. rewrite timing_window.
  destruct (Z.gtb_spec (Interval opts) win); [lia |].
  destruct (Z.eqb_spec (Interval opts) 0); [lia |]. cbn [negb bind].
  rewrite (Int64Facts.quot_nonneg win (Interval opts)) by lia.
  destruct (Z.eqb_spec (win / Interval opts) 0); [lia |].
  rewrite Int64Facts.quot_nonneg by lia. reflexivity.
Qed.

End Timing.

(** A sample time is exact when the offset and the sum stay in range. *)
Lemma sampleTime_exact (start interval i : Z) :
  Int64.in_range (i * interval) -> Int64.in_range (start + i * interval) ->
  sampleTime start interval i = start + i * interval.
Proof.
  intros H1 H2. unfold sampleTime, Int64.add, Int64.mul.
  rewrite (Int64Facts.wrap_id (i * interval)) by assumption.
  apply Int64Facts.wrap_id. assumption.
Qed.

(** Evenly spaced samples that fit between [start] and [start + win]. *)
Lemma samples_exact (start spacing win n : Z) :
  Int64.in_range start -> Int64.in_range (start + win) ->
  0 <= spacing -> 0 <= win <= Int64.max -> n * spacing <= win ->
  map (sampleTime start spacing) (indices n)
  = map (fun i => start + Z.of_nat i * spacing) (seq 0 (Z.to_nat n)).
Proof.
  intros Hs He Hsp Hw Hn. unfold indices. rewrite map_map.
  apply map_ext_in. intros i Hi. apply in_seq in Hi.
  assert (0 <= Z.of_nat i * spacing <= win) by nia.
  unfold Int64.in_range, Int64.min, Int64.max in *.
  apply sampleTime_exact; unfold Int64.in_range, Int64.min, Int64.max; lia.
Qed.

Lemma spaced_increasing (start spacing : Z) (k a : nat) :
  0 < spacing ->
  StronglySorted Z.lt (map (fun i => start + Z.of_nat i * spacing) (seq a k)).
Proof.
  intros Hsp. revert a. induction k as [| k IH]; intros a; simpl.
  - constructor.
  - constructor; [apply IH |].
    apply Forall_forall. intros t Ht. apply in_map_iff in Ht.
    destruct Ht as [i [<- Hi]]. apply in_seq in Hi. nia.
Qed.

(** C2, counterexample: a 3ns window with 5 tiles is valid, has a positive
    window and tile count, and yields five equal timestamps. *)
Lemma plan_3ns_5_tiles_not_increasing :
  Validate (options 0 3 5 0) = None /\
  0 < window (options 0 3 5 0) 0 /\
  effectiveTiles (options 0 3 5 0) 0 = 5 /\
  samplePlan (options 0 3 5 0) 0 = Ok [0; 0; 0; 0; 0] /\
  ~ StronglySorted Z.lt [0; 0; 0; 0; 0].
Proof.
  repeat split; try reflexivity.
  intros H. inversion H as [| ? ? _ Hall]. inversion Hall. lia.
Qed.

(** The planner's two ways to a tile count, on a window that fits. *)
Lemma timing_effective (opts : ThumbOptions) (duration : Z) :
  Int64.in_range (window opts duration) ->
  0 < window opts duration -> 0 < effectiveTiles opts duration ->
  timing opts duration
  = Ok (From opts,
        window opts duration / effectiveTiles opts duration,
        effectiveTiles opts duration) /\
  (Interval opts <> 0 ->
   0 < Interval opts <= window opts duration /\
   effectiveTiles opts duration = window opts duration / Interval opts).
Proof.
  intros Hfit Hw Hn. unfold effectiveTiles in *.
  destruct (Z.eqb_spec (Interval opts) 0) as [Hi | Hi].
  - split; [| contradiction].
    rewrite (timing_by_count opts duration Hfit Hi) by lia.
    rewrite Int64Facts.quot_nonneg;
      [reflexivity | destruct Hfit; lia | lia].
  - assert (Hpos : 0 < Interval opts <= window opts duration).
    { destruct (Z.lt_trichotomy (Interval opts) 0) as [Hneg | [H0 | Hpos]];
        [| contradiction |].
      - exfalso.
        pose proof (Z.quot_opp_r (window opts duration) (Interval opts) Hi) as Ho.
        assert (0 <= Z.quot (window opts duration) (- Interval opts))
          by (apply Z.quot_pos; lia).
        lia.
      - split; [exact Hpos |].
        destruct (Z.le_gt_cases (Interval opts) (window opts duration)) as [Hle | Hgt];
          [exact Hle |].
        rewrite Z.quot_small in Hn by lia. lia. }
    rewrite Z.quot_div_nonneg in * by lia.
    split; [| intros _; split; [exact Hpos | reflexivity]].
    apply timing_by_interval; assumption.
Qed.

(** C2 (amended): for valid options, a window [end - start > 0] and a
    positive effective tile count (the tile count itself, or
    [window / interval] when an interval is set), the plan is exactly the
    timestamps [start + i * spacing], [i] in [[0, tileCount)], where
    [spacing] is the whole number of nanoseconds [window / tileCount]; they
    strictly increase when [tileCount <= window] (in nanoseconds), which is
    always so for a count derived from an interval, and all equal [start]
    otherwise. *)
Theorem plan_by_tile_count (opts : ThumbOptions) (duration : Z) :
  Int64.in_range (From opts) -> Int64.in_range (sampleEnd opts duration) ->
  Validate opts = None ->
  0 < window opts duration <= Int64.max ->
  0 < effectiveTiles opts duration ->
  let tileCount := effectiveTiles opts duration in
  let spacing := window opts duration / tileCount in
  let plan := map (fun i => From opts + Z.of_nat i * spacing)
                  (seq 0 (Z.to_nat tileCount)) in
  samplePlan opts duration = Ok plan /\
  Z.of_nat (List.length plan) = tileCount /\
  (tileCount <= window opts duration -> StronglySorted Z.lt plan) /\
  (window opts duration < tileCount -> Forall (eq (From opts)) plan) /\
  (Interval opts <> 0 ->
   tileCount = window opts duration / Interval opts /\
   tileCount <= window opts duration).
Proof.
  intros Hs He Hvalid Hw Hn tileCount spacing plan.
  assert (Hfit : Int64.in_range (window opts duration))
    by (unfold Int64.in_range, Int64.min, Int64.max in *; lia).
  destruct (timing_effective opts duration Hfit ltac:(lia) Hn) as [Htiming Hint].
  fold tileCount in Htiming, Hint, Hn. fold spacing in Htiming.
  assert (Hsp : 0 <= spacing) by (apply Z.div_pos; lia).
  assert (Hmul : tileCount * spacing <= window opts duration)
    by (apply Z.mul_div_le; lia).
  split; [| split; [| split; [| split]]].
  - unfold samplePlan. rewrite Htiming. cbn [bind]. f_equal.
    apply samples_exact with (win := window opts duration); try assumption; try lia.
    unfold window. replace (From opts + (sampleEnd opts duration - From opts))
      with (sampleEnd opts duration) by lia. assumption.
  - unfold plan. rewrite length_map, length_seq. lia.
  - intros Hle. apply spaced_increasing.
    apply Z.div_str_pos. lia.
  - intros Hlt. unfold plan. apply Forall_forall. intros t Ht.
    apply in_map_iff in Ht. destruct Ht as [i [<- _]].
    unfold spacing. rewrite Z.div_small by lia. lia.
  - intros Hi. destruct (Hint Hi) as [Hpos Heq]. split; [exact Heq |].
    rewrite Heq. apply Z.div_le_upper_bound; nia.
Qed.

(** C2, witness: [from=0, to=100s, tileCount=5] gives 0, 20, 40, 60, 80
    seconds, strictly increasing; so does an interval of 20s. *)
Lemma plan_by_tile_count_0_100_5 :
  (samplePlan (options 0 (100 * Second) 5 0) 0
   = Ok [0; 20 * Second; 40 * Second; 60 * Second; 80 * Second] /\
   StronglySorted Z.lt [0; 20 * Second; 40 * Second; 60 * Second; 80 * Second]) /\
  samplePlan (options 0 (100 * Second) 0 (20 * Second)) 0
  = Ok [0; 20 * Second; 40 * Second; 60 * Second; 80 * Second].
Proof.
  split.
  - destruct (plan_by_tile_count (options 0 (100 * Second) 5 0) 0)
      as (Hplan & _ & Hinc & _); [evaluate .. |].
    split.
    + vm_compute in Hplan |- *. exact Hplan.
    + assert (Hle : effectiveTiles (options 0 (100 * Second) 5 0) 0
                    <= window (options 0 (100 * Second) 5 0) 0) by evaluate.
      apply Hinc in Hle. vm_compute in Hle |- *. exact Hle.
  - destruct (plan_by_tile_count (options 0 (100 * Second) 0 (20 * Second)) 0)
      as (Hplan & _); [evaluate .. |].
    vm_compute in Hplan |- *. exact Hplan.
Defined.




(** ** The pool *)

Section PoolFacts.

Variable tasks : list (indexedThumb * option error).

Lemma finish_all (order : list nat) (p : Pool) :
  fold_left
    (fun p k => match nth_error tasks k with
                | Some r => finish true p r
                | None => p
                end) order p
  = {| results := results p ++ flat_map (resultOf tasks) order;
       errs := errs p ++ flat_map (errorOf tasks) order |}.
Proof.
  revert p. induction order as [| k order IH]; intros [rs es]; simpl.
  - rewrite !app_nil_r. reflexivity.
  - rewrite IH. unfold resultOf, errorOf, finish.
    destruct (nth_error tasks k) as [[r [e |]] |]; simpl;
      rewrite <- ?app_assoc; reflexivity.
Qed.

Lemma Wait_eq (order : list nat) :
  Wait tasks order
  = (flat_map (resultOf tasks) order,
     match flat_map (errorOf tasks) order with
     | [] => None
     | es => Some (ErrJoin es)
     end).
Proof. unfold Wait. rewrite finish_all. reflexivity. Qed.

End PoolFacts.

(** ** Sorting on distinct keys *)

Section SortFacts.

Context {A : Type} (key : A -> Z).

Let less (a b : A) : bool := key a <? key b.
Let le_key (a b : A) : Prop := key a <= key b.
Let lt_key (a b : A) : Prop := key a < key b.

Lemma insertSorted_perm (x : A) (l : list A) :
  Permutation (insertSorted less x l) (x :: l).
Proof.
  induction l as [| y l IH]; simpl.
  - reflexivity.
  - destruct (less x y).
    + reflexivity.
    + rewrite IH. apply perm_swap.
Qed.

Lemma SortFunc_perm (l : list A) : Permutation (SortFunc less l) l.
Proof.
  induction l as [| x l IH]; simpl.
  - reflexivity.
  - rewrite insertSorted_perm. apply perm_skip. exact IH.
Qed.

Lemma insertSorted_sorted (x : A) (l : list A) :
  StronglySorted le_key l -> StronglySorted le_key (insertSorted less x l).
Proof.
  induction 1 as [| y l Hl IH Hy]; simpl.
  - repeat constructor.
  - unfold less at 1. destruct (Z.ltb_spec (key x) (key y)) as [Hlt | Hge].
    + constructor; [constructor; assumption |].
      constructor; [unfold le_key; lia |].
      eapply Forall_impl; [| exact Hy]. unfold le_key. intros; lia.
    + constructor; [exact IH |].
      eapply Permutation_Forall; [symmetry; apply insertSorted_perm |].
      constructor; [exact Hge | exact Hy].
Qed.

Lemma SortFunc_sorted (l : list A) : StronglySorted le_key (SortFunc less l).
Proof.
  induction l as [| x l IH]; simpl.
  - constructor.
  - apply insertSorted_sorted. exact IH.
Qed.

(** A list sorted on its keys is the only sorted arrangement of a list whose
    keys strictly increase: the sorting algorithm does not matter. *)
Lemma sorted_arrangement_unique (l1 l2 : list A) :
  Permutation l1 l2 ->
  StronglySorted le_key l1 -> StronglySorted lt_key l2 -> l1 = l2.
Proof.
  intros Hperm H1. revert l2 Hperm.
  induction H1 as [| x l1 Hl1 IH Hx]; intros l2 Hperm H2.
  - apply Permutation_nil in Hperm. congruence.
  - destruct H2 as [| y l2 Hl2 Hy].
    + symmetry in Hperm. apply Permutation_nil in Hperm. discriminate.
    + assert (x = y) as ->.
      { assert (Hxin : In x (y :: l2))
          by (eapply Permutation_in; [exact Hperm | left; reflexivity]).
        assert (Hyin : In y (x :: l1))
          by (eapply Permutation_in; [symmetry; exact Hperm | left; reflexivity]).
        destruct Hxin as [-> | Hxin]; [reflexivity |].
        destruct Hyin as [-> | Hyin]; [reflexivity |].
        rewrite Forall_forall in Hx, Hy.
        specialize (Hx _ Hyin). specialize (Hy _ Hxin).
        unfold le_key, lt_key in *. lia. }
      f_equal. apply IH; [| exact Hl2].
      eapply Permutation_cons_inv. exact Hperm.
Qed.

Lemma SortFunc_unique (l sorted : list A) :
  Permutation l sorted -> StronglySorted lt_key sorted ->
  SortFunc less l = sorted.
Proof.
  intros Hperm Hsorted. apply sorted_arrangement_unique.
  - rewrite SortFunc_perm. exact Hperm.
  - apply SortFunc_sorted.
  - exact Hsorted.
Qed.

End SortFacts.

(** ** MakeThumbnails past the timing plan *)

Lemma nth_error_seq_lt (a len k : nat) :
  (k < len)%nat -> nth_error (seq a len) k = Some (a + k)%nat.
Proof.
  intros H. rewrite (nth_error_nth' _ 0%nat) by (rewrite length_seq; exact H).
  rewrite seq_nth by exact H. reflexivity.
Qed.

Lemma flat_map_ext_in {A B : Type} (f g : A -> list B) (l : list A) :
  (forall a, In a l -> f a = g a) -> flat_map f l = flat_map g l.
Proof.
  induction l as [| a l IH]; simpl; intros H.
  - reflexivity.
  - rewrite (H a) by (left; reflexivity).
    rewrite IH by (intros; apply H; right; assumption). reflexivity.
Qed.

Lemma flat_map_singleton {A B : Type} (f : A -> B) (l : list A) :
  flat_map (fun a => [f a]) l = map f l.
Proof. induction l as [| a l IH]; simpl; congruence. Qed.

Lemma flat_map_through_map {A B C : Type} (g : A -> B) (f : B -> list C) (l : list A) :
  flat_map f (map g l) = flat_map (fun a => f (g a)) l.
Proof. induction l as [| a l IH]; simpl; congruence. Qed.

Lemma flat_map_nil {A B : Type} (l : list A) :
  flat_map (fun _ : A => @nil B) l = [].
Proof. induction l as [| a l IH]; simpl; congruence. Qed.

Lemma extractThumbnail_ok (w : World) (t width height : Z) (th : Thumbnail) :
  extractThumbnail w t width height = inr th ->
  Timestamp th = t /\ Image th <> None.
Proof.
  unfold extractThumbnail.
  destruct (if width =? 0 then (-1, height)
            else if height =? 0 then (width, -1) else (width, height)) as [w' h'].
  destruct (ffmpeg w (Milliseconds t) w' h'); intros H; inversion H; subst; simpl.
  split; [reflexivity | discriminate].
Qed.

Section Run.

Variables (w : World) (opts : ThumbOptions) (d start interval n : Z).

Hypothesis Hvalid : Validate opts = None.
Hypothesis Hinstalled : checkFfmpegInstalled w = None.
Hypothesis Hduration : readDuration w = Ok d.
Hypothesis Htiming : timing opts d = Ok (start, interval, n).

Let tasks := map (extractTask w opts start interval) (indices n).

Lemma MakeThumbnails_pool (order : list nat) :
  MakeThumbnails w order opts
  = match Wait tasks order with
    | (_, Some err) => Err err
    | (results, None) =>
        Ok (map thumb (SortFunc (fun a b => Index a <? Index b) results))
    end.
Proof.
  unfold MakeThumbnails. rewrite Hvalid, Hinstalled, Hduration, Htiming.
  reflexivity.
Qed.

Lemma task_at (k : nat) :
  (k < Z.to_nat n)%nat ->
  nth_error tasks k = Some (extractTask w opts start interval (Z.of_nat k)).
Proof.
  intros Hk. unfold tasks, indices. rewrite map_map, nth_error_map.
  rewrite nth_error_seq_lt by exact Hk. reflexivity.
Qed.

Section Order.

Variable order : list nat.
Hypothesis Horder : Permutation order (seq 0 (Z.to_nat n)).

Lemma order_lt (k : nat) : In k order -> (k < Z.to_nat n)%nat.
Proof.
  intros Hk. apply (Permutation_in _ Horder) in Hk. apply in_seq in Hk. lia.
Qed.

Lemma pool_errors :
  flat_map (errorOf tasks) order = failures w opts start interval (map Z.of_nat order).
Proof.
  unfold failures. rewrite flat_map_through_map.
  apply flat_map_ext_in. intros k Hk. unfold errorOf.
  rewrite (task_at k (order_lt k Hk)). unfold extractTask. fold (extractAt w opts start interval (Z.of_nat k)).
  destruct (extractAt w opts start interval (Z.of_nat k)); reflexivity.
Qed.

Lemma failures_perm :
  Permutation (failures w opts start interval (map Z.of_nat order)) (failures w opts start interval (indices n)).
Proof.
  unfold failures, indices. apply Permutation_flat_map, Permutation_map, Horder.
Qed.

(** Any failed extraction fails the call with the joined causes, in the
    order in which the failing tasks finished. *)
Lemma MakeThumbnails_failed :
  failures w opts start interval (indices n) <> [] ->
  failures w opts start interval (map Z.of_nat order) <> [] /\
  MakeThumbnails w order opts = Err (ErrJoin (failures w opts start interval (map Z.of_nat order))).
Proof.
  intros Hfail.
  assert (Hne : failures w opts start interval (map Z.of_nat order) <> []).
  { intros Hnil. apply Hfail. eapply Permutation_nil.
    rewrite <- Hnil. apply failures_perm. }
  split; [exact Hne |].
  rewrite MakeThumbnails_pool, Wait_eq, pool_errors.
  destruct (failures w opts start interval (map Z.of_nat order)); [contradiction | reflexivity].
Qed.

Hypothesis Hall : forall i, In i (indices n) -> exists th, extractAt w opts start interval i = inr th.

Lemma task_succeeds (k : nat) :
  (k < Z.to_nat n)%nat ->
  extractTask w opts start interval (Z.of_nat k) = (indexedAt w opts start interval k, None).
Proof.
  intros Hk. unfold extractTask, indexedAt, thumbAt.
  fold (extractAt w opts start interval (Z.of_nat k)).
  destruct (Hall (Z.of_nat k)) as [th Hth].
  { unfold indices. apply in_map, in_seq. lia. }
  rewrite Hth. reflexivity.
Qed.

Lemma indexedAt_sorted (a len : nat) :
  StronglySorted (fun x y => Index x < Index y) (map (indexedAt w opts start interval) (seq a len)).
Proof.
  revert a. induction len as [| len IH]; intros a; simpl.
  - constructor.
  - constructor; [apply IH |].
    apply Forall_forall. intros x Hx. apply in_map_iff in Hx.
    destruct Hx as [k [<- Hk]]. apply in_seq in Hk. simpl. lia.
Qed.

(** When every extraction succeeds the call returns the thumbnails in loop
    order, whatever the completion order. *)
Lemma MakeThumbnails_succeeded :
  MakeThumbnails w order opts = Ok (map (thumbAt w opts start interval) (indices n)).
Proof.
  rewrite MakeThumbnails_pool, Wait_eq.
  assert (Herrs : flat_map (errorOf tasks) order = []).
  { rewrite <- (flat_map_nil order). apply flat_map_ext_in. intros k Hk.
    unfold errorOf. rewrite (task_at k (order_lt k Hk)).
    rewrite (task_succeeds k (order_lt k Hk)). reflexivity. }
  assert (Hres : flat_map (resultOf tasks) order = map (indexedAt w opts start interval) order).
  { rewrite <- flat_map_singleton. apply flat_map_ext_in. intros k Hk.
    unfold resultOf. rewrite (task_at k (order_lt k Hk)).
    rewrite (task_succeeds k (order_lt k Hk)). reflexivity. }
  rewrite Herrs, Hres. f_equal.
  rewrite (SortFunc_unique Index (map (indexedAt w opts start interval) order)
             (map (indexedAt w opts start interval) (seq 0 (Z.to_nat n)))).
  - unfold indices. rewrite !map_map. reflexivity.
  - apply Permutation_map, Horder.
  - apply indexedAt_sorted.
Qed.

Lemma thumbAt_timestamps :
  map Timestamp (map (thumbAt w opts start interval) (indices n))
  = map (sampleTime start interval) (indices n).
Proof.
  rewrite map_map. apply map_ext_in. intros i Hi.
  destruct (Hall i Hi) as [th Hth]. unfold thumbAt. rewrite Hth.
  apply extractThumbnail_ok in Hth. tauto.
Qed.

End Order.

End Run.

Lemma samplePlan_inv (opts : ThumbOptions) (d : Z) (plan : list Z) :
  samplePlan opts d = Ok plan ->
  exists start interval n,
    timing opts d = Ok (start, interval, n) /\
    plan = map (sampleTime start interval) (indices n).
Proof.
  unfold samplePlan. destruct (timing opts d) as [[[start interval] n] | |];
    simpl; intros H; inversion H.
  exists start, interval, n. split; reflexivity.
Qed.

Lemma length_indices (n : Z) : List.length (indices n) = Z.to_nat n.
Proof. unfold indices. rewrite length_map, length_seq. reflexivity. Qed.

(** C7: when every planned sample extracts, then for every completion
    order of the pool's tasks the call returns the thumbnails in sample
    order: the i-th thumbnail carries the i-th planned timestamp, and the
    list is the one obtained when the tasks finish in submission order. *)
Theorem thumbnails_in_sample_order
  (w : World) (order : list nat) (opts : ThumbOptions) (d : Z) (plan : list Z) :
  Validate opts = None -> checkFfmpegInstalled w = None ->
  readDuration w = Ok d -> samplePlan opts d = Ok plan ->
  Permutation order (seq 0 (List.length plan)) ->
  (forall t, In t plan ->
     exists th, extractThumbnail w t (TileWidth opts) (TileHeight opts) = inr th) ->
  exists thumbs,
    MakeThumbnails w order opts = Ok thumbs /\
    map Timestamp thumbs = plan /\
    (forall i th, nth_error thumbs i = Some th ->
                  nth_error plan i = Some (Timestamp th)) /\
    MakeThumbnails w (seq 0 (List.length plan)) opts = Ok thumbs.
Proof.
  intros Hvalid Hinst Hdur Hplan Horder Hall.
  destruct (samplePlan_inv _ _ _ Hplan) as (start & interval & n & Htiming & ->).
  rewrite length_map, length_indices in Horder |- *.
  assert (Hall' : forall i, In i (indices n) ->
                    exists th, extractAt w opts start interval i = inr th).
  { intros i Hi. apply Hall. apply in_map. exact Hi. }
  assert (Hts : map Timestamp (map (thumbAt w opts start interval) (indices n))
                = map (sampleTime start interval) (indices n))
    by (apply thumbAt_timestamps; exact Hall').
  exists (map (thumbAt w opts start interval) (indices n)).
  repeat split.
  - apply (MakeThumbnails_succeeded w opts d start interval n); assumption.
  - exact Hts.
  - intros i th Hth. rewrite <- Hts, nth_error_map, Hth. reflexivity.
  - apply (MakeThumbnails_succeeded w opts d start interval n); try assumption.
    reflexivity.
Qed.

(** C7, witness: five tasks finishing in the order 2, 0, 1, 4, 3. *)
Lemma thumbnails_in_sample_order_shuffled :
  exists thumbs,
    MakeThumbnails (video 100) [2; 0; 1; 4; 3]%nat (options 0 (100 * Second) 5 0)
    = Ok thumbs /\
    map Timestamp thumbs
    = [0; 20 * Second; 40 * Second; 60 * Second; 80 * Second].
Proof.
  destruct (thumbnails_in_sample_order (video 100) [2; 0; 1; 4; 3]%nat
              (options 0 (100 * Second) 5 0) (100 * Second)
              [0; 20 * Second; 40 * Second; 60 * Second; 80 * Second])
    as (thumbs & Hok & Hts & _); try reflexivity.
  - simpl.
    apply (Permutation_trans (perm_swap 0%nat 2%nat _)). apply perm_skip.
    apply (Permutation_trans (perm_swap 1%nat 2%nat _)). do 2 apply perm_skip.
    apply perm_swap.
  - intros t _. eexists. reflexivity.
  - exists thumbs. split; assumption.
Defined.

Lemma failures_in (w : World) (opts : ThumbOptions) (start interval i : Z)
  (e : error) (ks : list Z) :
  In i ks -> extractAt w opts start interval i = inl e ->
  In e (failures w opts start interval ks).
Proof.
  intros Hi He. unfold failures. apply in_flat_map. exists i.
  split; [exact Hi |]. rewrite He. left. reflexivity.
Qed.

(** C1, counterexample: two runs on a video none of whose frames extract.
    Their failed samples lie at 0s and 50s in one and at 10s and 55s in the
    other, yet both calls return the same error: the error holds the causes
    and no timestamps. *)
Lemma joined_error_omits_timestamps :
  samplePlan (options 0 (100 * Second) 2 0) (100 * Second)
  = Ok [0; 50 * Second] /\
  samplePlan (options (10 * Second) (100 * Second) 2 0) (100 * Second)
  = Ok [10 * Second; 55 * Second] /\
  MakeThumbnails (brokenVideo 100) [0; 1]%nat (options 0 (100 * Second) 2 0)
  = Err (ErrJoin [ErrRunFfmpeg "exit status 1"; ErrRunFfmpeg "exit status 1"]) /\
  MakeThumbnails (brokenVideo 100) [0; 1]%nat
    (options (10 * Second) (100 * Second) 2 0)
  = Err (ErrJoin [ErrRunFfmpeg "exit status 1"; ErrRunFfmpeg "exit status 1"]).
Proof. repeat split; vm_compute; reflexivity. Qed.

(** C1 (amended): when the extraction of at least one planned sample
    fails, [MakeThumbnails] returns no thumbnails but the error joining the
    causes of the failed samples (each exactly once, in the order in which
    the failing tasks finished), and [Generate] fails too, so no contact
    sheet is produced.  The error does not hold the timestamps. *)
Theorem failed_extraction_fails_call
  (w : World) (order : list nat) (opts : ThumbOptions) (d start interval n : Z) :
  Validate opts = None -> checkFfmpegInstalled w = None ->
  readDuration w = Ok d -> timing opts d = Ok (start, interval, n) ->
  Permutation order (seq 0 (Z.to_nat n)) ->
  (exists i e, In i (indices n) /\ extractAt w opts start interval i = inl e) ->
  let causes := failures w opts start interval (map Z.of_nat order) in
  causes <> [] /\
  Permutation causes (failures w opts start interval (indices n)) /\
  MakeThumbnails w order opts = Err (ErrJoin causes) /\
  Generate w order opts = Err (ErrMakeThumbnails (ErrJoin causes)).
Proof.
  intros Hvalid Hinst Hdur Htiming Horder (i & e & Hi & He) causes.
  assert (Hfail : failures w opts start interval (indices n) <> []).
  { intros Hnil. pose proof (failures_in _ _ _ _ _ _ _ Hi He) as Hin.
    rewrite Hnil in Hin. destruct Hin. }
  destruct (MakeThumbnails_failed w opts d start interval n
              Hvalid Hinst Hdur Htiming order Horder Hfail) as [Hne Herr].
  repeat split.
  - exact Hne.
  - apply failures_perm. exact Horder.
  - exact Herr.
  - unfold Generate. rewrite Herr. reflexivity.
Qed.

(** C1, witness: the first of two samples fails. *)
Lemma failed_extraction_fails_call_first_sample :
  MakeThumbnails (damagedVideo 125 100) [1; 0]%nat (options 0 0 0 (60 * Second))
  = Err (ErrJoin [ErrRunFfmpeg "exit status 1"]) /\
  Generate (damagedVideo 125 100) [1; 0]%nat (options 0 0 0 (60 * Second))
  = Err (ErrMakeThumbnails (ErrJoin [ErrRunFfmpeg "exit status 1"])).
Proof.
  destruct (failed_extraction_fails_call (damagedVideo 125 100) [1; 0]%nat
              (options 0 0 0 (60 * Second)) (125 * Second)
              0 (62500 * Millisecond) 2)
    as (_ & _ & Herr & Hgen); try reflexivity.
  - apply perm_swap.
  - exists 0, (ErrRunFfmpeg "exit status 1"). split; [left |]; reflexivity.
  - split; [exact Herr | exact Hgen].
Defined.

(** ** Degenerate plans *)

Lemma MakeThumbnails_timing_err
  (w : World) (order : list nat) (opts : ThumbOptions) (d : Z) (e : error) :
  Validate opts = None -> checkFfmpegInstalled w = None ->
  readDuration w = Ok d -> timing opts d = Err e ->
  MakeThumbnails w order opts = Err e /\
  Generate w order opts = Err (ErrMakeThumbnails e).
Proof.
  intros Hvalid Hinst Hdur Htiming.
  assert (H : MakeThumbnails w order opts = Err e).
  { unfold MakeThumbnails. rewrite Hvalid, Hinst, Hdur, Htiming. reflexivity. }
  split; [exact H |]. unfold Generate. rewrite H. reflexivity.
Qed.

Lemma MakeThumbnails_timing_panic
  (w : World) (order : list nat) (opts : ThumbOptions) (d : Z) (p : panic) :
  Validate opts = None -> checkFfmpegInstalled w = None ->
  readDuration w = Ok d -> timing opts d = Panic p ->
  MakeThumbnails w order opts = Panic p /\ Generate w order opts = Panic p.
Proof.
  intros Hvalid Hinst Hdur Htiming.
  assert (H : MakeThumbnails w order opts = Panic p).
  { unfold MakeThumbnails. rewrite Hvalid, Hinst, Hdur, Htiming. reflexivity. }
  split; [exact H |]. unfold Generate. rewrite H. reflexivity.
Qed.

(** C5 (the code departs from the claim): options with neither interval nor
    tile count pass validation, and on a window that is not negative the
    call reaches [duration / time.Duration(totalTiles)] with
    [totalTiles = 0] and panics; no error is returned. *)
Theorem zero_tile_count_panics
  (w : World) (order : list nat) (opts : ThumbOptions) (d : Z) :
  checkFfmpegInstalled w = None -> readDuration w = Ok d ->
  Interval opts = 0 -> TileCount opts = 0 ->
  0 <= window opts d <= Int64.max ->
  Validate opts = None /\
  MakeThumbnails w order opts = Panic DivideByZero /\
  Generate w order opts = Panic DivideByZero.
Proof.
  intros Hinst Hdur Hi Hn Hw.
  assert (Hvalid : Validate opts = None).
  { unfold Validate. rewrite Hi, Hn. unfold window, sampleEnd in Hw. revert Hw.
    destruct (Z.eqb_spec (From opts) 0), (Z.eqb_spec (To opts) 0),
      (Z.gtb_spec (From opts) (To opts)); simpl; intros; try reflexivity; lia. }
  split; [exact Hvalid |].
  apply (MakeThumbnails_timing_panic w order opts d); try assumption.
  apply timing_by_zero_count; try assumption; try lia.
  unfold Int64.in_range, Int64.min, Int64.max in *. lia.
Qed.

(** C5, witness: the zero options on a 100s video. *)
Lemma zero_tile_count_panics_zero_options :
  MakeThumbnails (video 100) []
    {| From := 0; To := 0; TileColumns := 0; TileCount := 0; Interval := 0;
       TileWidth := 0; TileHeight := 0; OverlayTimestamps := false;
       TimestampBackground := None; Padding := 0 |}
  = Panic DivideByZero.
Proof.
  refine (proj1 (proj2 (zero_tile_count_panics (video 100) [] _ (100 * Second)
                          _ _ _ _ _))); try reflexivity.
  unfold window, sampleEnd, Int64.max; simpl.
  unfold Second, Millisecond, Microsecond, Nanosecond; lia.
Defined.

(** C6, counterexample: [from = to = 10s] is valid and gives the window 0;
    with [tileCount = 5] the call returns five thumbnails, all sampled at
    10s. *)
Lemma empty_window_accepted :
  Validate (options (10 * Second) (10 * Second) 5 0) = None /\
  window (options (10 * Second) (10 * Second) 5 0) (100 * Second) = 0 /\
  MakeThumbnails (video 100) [0; 1; 2; 3; 4]%nat
    (options (10 * Second) (10 * Second) 5 0)
  = Ok [tile 10000; tile 10000; tile 10000; tile 10000; tile 10000].
Proof. repeat split; vm_compute; reflexivity. Qed.

(** C6 (amended): with the tools installed and a probed duration, when
    the window [end - start] is zero or negative and smaller than the
    interval -- so for every positive interval, and for a negative window
    with no interval -- [MakeThumbnails] returns no thumbnails but an
    error, and [Generate] fails with it: the complaint of [Validate] when
    the options are not valid (start after end with both set, or interval
    and tile count both set), and otherwise "interval is larger than
    available video duration" carrying the window. *)
Theorem nonpositive_window_rejected
  (w : World) (order : list nat) (opts : ThumbOptions) (d : Z) :
  checkFfmpegInstalled w = None ->
  readDuration w = Ok d ->
  Int64.min <= window opts d <= 0 ->
  window opts d < Interval opts ->
  let err := match Validate opts with
             | Some complaint => ErrInvalidOptions complaint
             | None => ErrIntervalLarger (window opts d)
             end in
  MakeThumbnails w order opts = Err err /\
  Generate w order opts = Err (ErrMakeThumbnails err).
Proof.
  intros Hinst Hdur Hw Hi err.
  destruct (Validate opts) as [complaint |] eqn:Hvalid.
  - assert (H : MakeThumbnails w order opts = Err err)
      by (unfold MakeThumbnails; rewrite Hvalid; reflexivity).
    split; [exact H |]. unfold Generate. rewrite H. reflexivity.
  - apply (MakeThumbnails_timing_err w order opts d); try assumption.
    apply timing_rejects; [| exact Hi].
    unfold Int64.in_range, Int64.min, Int64.max in *. lia.
Qed.

(** C6, witness: a 30s video sampled from 50s on, every 60s; and the
    same with a stopping point of 40s, before the start. *)
Lemma nonpositive_window_rejected_short_video :
  MakeThumbnails (video 30) [] (options (50 * Second) 0 0 (60 * Second))
  = Err (ErrIntervalLarger (- (20 * Second))) /\
  MakeThumbnails (video 30) [] (options (50 * Second) (40 * Second) 0 (60 * Second))
  = Err (ErrInvalidOptions ErrStartAfterEnd).
Proof.
  split.
  - refine (proj1 (nonpositive_window_rejected (video 30) []
                     (options (50 * Second) 0 0 (60 * Second)) (30 * Second)
                     _ _ _ _)); try reflexivity;
      unfold window, sampleEnd, Int64.min; simpl;
      unfold Second, Millisecond, Microsecond, Nanosecond; lia.
  - refine (proj1 (nonpositive_window_rejected (video 30) []
                     (options (50 * Second) (40 * Second) 0 (60 * Second))
                     (30 * Second) _ _ _ _)); try reflexivity;
      unfold window, sampleEnd, Int64.min; simpl;
      unfold Second, Millisecond, Microsecond, Nanosecond; lia.
Defined.

(** ** The prober *)

(** The prober returns a whole number of seconds whenever the product
    does not wrap. *)
Lemma readDuration_whole_seconds (w : World) (q : Q) :
  ffprobe w = ProbeSeconds (Finite q) ->
  Int64.in_range (Second * Z.quot (Qnum q) (Zpos (Qden q))) ->
  readDuration w = Ok (Second * Z.quot (Qnum q) (Zpos (Qden q))).
Proof.
  intros Hp Hr. unfold readDuration. rewrite Hp. f_equal.
  unfold Duration_of_float64.
  assert (Ht : Int64.in_rangeb (Z.quot (Qnum q) (Zpos (Qden q))) = true).
  { apply Int64Facts.in_rangeb_spec.
    unfold Int64.in_range, Int64.min, Int64.max, Second, Millisecond,
      Microsecond, Nanosecond in *. lia. }
  rewrite Ht. apply Int64Facts.wrap_id. exact Hr.
Qed.

(** C10 (the code departs from the claim): a probe reporting 3.5 seconds
    yields the duration 3s, not 3.5s; [time.Duration(seconds)] drops the
    fraction before the multiplication by [time.Second]. *)
Theorem probed_fraction_dropped :
  readDuration (video (7 # 2)) = Ok (3 * Second) /\
  3 * Second <> 3500 * Millisecond.
Proof. split; [reflexivity | discriminate]. Qed.

(** ** Colour parsing *)

Lemma hex_digit (c : ascii) (v : Z) :
  hexValue c = Some v ->
  strconv.digit 16 c = Some v /\ 0 <= v < 16 /\
  Ascii.eqb c "+" = false /\ Ascii.eqb c "-" = false /\
  Ascii.eqb c "#" = false /\ Ascii.eqb c "t" = false.
Proof.
  destruct c as [[] [] [] [] [] [] [] []]; intros H; cbv in H;
    try discriminate H; injection H as <-;
    repeat split; try reflexivity; lia.
Qed.

Lemma ParseInt_hex_pair (hi lo : ascii) (v : Z) :
  hexByte hi lo = Some v ->
  strconv.ParseInt (String hi (String lo "")) 16 = (v, None) /\ uint8 v = v.
Proof.
  unfold hexByte.
  destruct (hexValue hi) as [x |] eqn:Hx; [| discriminate].
  destruct (hexValue lo) as [y |] eqn:Hy; [| discriminate].
  intros H. assert (Hv : 16 * x + y = v) by (injection H as H; exact H).
  subst v. clear H.
  destruct hi as [[] [] [] [] [] [] [] []]; cbv in Hx; try discriminate Hx;
    injection Hx as <-;
    destruct lo as [[] [] [] [] [] [] [] []]; cbv in Hy; try discriminate Hy;
    injection Hy as <-; split; vm_compute; reflexivity.
Qed.

Lemma stripHash_cons (c : ascii) (rest : string) :
  stripHash (String c rest) = if Ascii.eqb c "#" then rest else String c rest.
Proof. destruct c as [[] [] [] [] [] [] [] []]; reflexivity. Qed.

Lemma allHex_pair (hi lo : ascii) (s : string) :
  allHex (String hi (String lo s)) = true ->
  (exists v, hexByte hi lo = Some v) /\ allHex s = true.
Proof.
  unfold allHex, hexByte. simpl.
  destruct (hexValue hi); [| discriminate].
  destruct (hexValue lo); [| discriminate].
  simpl. intros H. split; [eexists; reflexivity | exact H].
Qed.

(** The part of [ParseColor] after the hash sign is gone. *)
Lemma ParseColor_stripped (hex : string) :
  hex <> "" -> String.eqb hex "transparent" = false ->
  ParseColor hex
  = let hex := stripHash hex in
    if (String.length hex =? 6)%nat then
      Ok (RGBA (uint8 (fst (strconv.ParseInt (slice hex 0 2) 16)))
               (uint8 (fst (strconv.ParseInt (slice hex 2 4) 16)))
               (uint8 (fst (strconv.ParseInt (slice hex 4 6) 16)))
               (uint8 255))
    else if (String.length hex =? 8)%nat then
      Ok (RGBA (uint8 (fst (strconv.ParseInt (slice hex 0 2) 16)))
               (uint8 (fst (strconv.ParseInt (slice hex 2 4) 16)))
               (uint8 (fst (strconv.ParseInt (slice hex 4 6) 16)))
               (uint8 (fst (strconv.ParseInt (slice hex 6 8) 16))))
    else Err (ErrInvalidHex hex).
Proof.
  intros Hne Ht. unfold ParseColor. rewrite Ht.
  destruct hex as [| c rest]; [contradiction |].
  rewrite stripHash_cons. reflexivity.
Qed.

(** C8, counterexample: six bytes that are no hex digits are accepted as
    opaque black, where the claim has an invalid-colour error. *)
Lemma non_hex_digits_accepted :
  ParseColor "zzzzzz" = Ok (RGBA 0 0 0 255) /\
  specColor "zzzzzz" = Err (ErrInvalidHex "zzzzzz").
Proof. split; reflexivity. Qed.

(** The empty string is indexed at 0 before its length is looked at. *)
Example ParseColor_empty_panics : ParseColor "" = Panic IndexOutOfRange.
Proof. reflexivity. Qed.

(** X10: six or eight bytes are always accepted, hex digits or not. *)
Lemma ParseColor_length_decides (hex : string) :
  hex <> "" -> String.eqb hex "transparent" = false ->
  String.length (stripHash hex) = 6%nat \/ String.length (stripHash hex) = 8%nat ->
  exists c, ParseColor hex = Ok c.
Proof.
  intros Hne Ht Hlen. rewrite ParseColor_stripped by assumption. cbv zeta.
  destruct Hlen as [-> | ->]; eexists; reflexivity.
Qed.

(** Every byte is among the 256 bytes. *)
Lemma all_bytes (c : ascii) : In c (map ascii_of_nat (seq 0 256)).
Proof.
  apply in_map_iff. exists (nat_of_ascii c). split.
  - apply ascii_nat_embedding.
  - apply in_seq. pose proof (nat_ascii_bounded c). lia.
Qed.

(** What [ParseColor] makes of any two bytes. *)
Lemma ParseInt_pair (hi lo : ascii) :
  uint8 (fst (strconv.ParseInt (String hi (String lo "")) 16)) = channelValue hi lo.
Proof.
  assert (Hall :
    forallb (fun hi =>
      forallb (fun lo =>
        uint8 (fst (strconv.ParseInt (String hi (String lo "")) 16))
        =? channelValue hi lo)
        (map ascii_of_nat (seq 0 256)))
      (map ascii_of_nat (seq 0 256)) = true) by (vm_compute; reflexivity).
  rewrite forallb_forall in Hall. specialize (Hall hi (all_bytes hi)).
  rewrite forallb_forall in Hall. specialize (Hall lo (all_bytes lo)).
  apply Z.eqb_eq. exact Hall.
Qed.

Lemma ParseColor_lenient (hex : string) :
  hex <> "" -> ParseColor hex = lenientColor hex.
Proof.
  intros Hne.
  destruct (String.eqb hex "transparent") eqn:Ht.
  { unfold ParseColor, lenientColor. rewrite Ht. reflexivity. }
  rewrite ParseColor_stripped by assumption.
  unfold lenientColor. rewrite Ht. cbv zeta.
  destruct (stripHash hex)
    as [| c1 [| c2 [| c3 [| c4 [| c5 [| c6 [| c7 [| c8 [| c9 s]]]]]]]]];
    try reflexivity.
  - cbn [String.length Nat.eqb slice Nat.sub substring list_ascii_of_string].
    rewrite !ParseInt_pair. reflexivity.
  - cbn [String.length Nat.eqb slice Nat.sub substring list_ascii_of_string].
    rewrite !ParseInt_pair. reflexivity.
Qed.

Lemma ParseColor_hex (hex : string) :
  hex <> "" ->
  (String.length (stripHash hex) = 6%nat \/ String.length (stripHash hex) = 8%nat ->
   allHex (stripHash hex) = true) ->
  ParseColor hex = specColor hex.
Proof.
  intros Hne Hhex.
  destruct (String.eqb hex "transparent") eqn:Ht.
  { unfold ParseColor, specColor. rewrite Ht. reflexivity. }
  rewrite ParseColor_stripped by assumption.
  unfold specColor. rewrite Ht. cbv zeta.
  destruct (stripHash hex)
    as [| c1 [| c2 [| c3 [| c4 [| c5 [| c6 [| c7 [| c8 [| c9 s]]]]]]]]];
    try reflexivity.
  - destruct (allHex_pair _ _ _ (Hhex (or_introl eq_refl))) as [[r Hr] H1].
    destruct (allHex_pair _ _ _ H1) as [[g Hg] H2].
    destruct (allHex_pair _ _ _ H2) as [[b Hb] _].
    destruct (ParseInt_hex_pair _ _ _ Hr) as [Pr Ur].
    destruct (ParseInt_hex_pair _ _ _ Hg) as [Pg Ug].
    destruct (ParseInt_hex_pair _ _ _ Hb) as [Pb Ub].
    cbn [String.length Nat.eqb slice Nat.sub substring].
    rewrite Hr, Hg, Hb, Pr, Pg, Pb. cbn [fst]. rewrite Ur, Ug, Ub. reflexivity.
  - destruct (allHex_pair _ _ _ (Hhex (or_intror eq_refl))) as [[r Hr] H1].
    destruct (allHex_pair _ _ _ H1) as [[g Hg] H2].
    destruct (allHex_pair _ _ _ H2) as [[b Hb] H3].
    destruct (allHex_pair _ _ _ H3) as [[a Ha] _].
    destruct (ParseInt_hex_pair _ _ _ Hr) as [Pr Ur].
    destruct (ParseInt_hex_pair _ _ _ Hg) as [Pg Ug].
    destruct (ParseInt_hex_pair _ _ _ Hb) as [Pb Ub].
    destruct (ParseInt_hex_pair _ _ _ Ha) as [Pa Ua].
    cbn [String.length Nat.eqb slice Nat.sub substring].
    rewrite Hr, Hg, Hb, Ha, Pr, Pg, Pb, Pa. cbn [fst].
    rewrite Ur, Ug, Ub, Ua. reflexivity.
Qed.

(** C8 (amended): on every input other than the empty string (on which
    it panics), [ParseColor] gives the transparent colour for the
    transparent token and otherwise goes by the length of the input without
    its leading hash sign: six bytes give an opaque RGB colour, eight bytes
    an RGBA colour, any other length the invalid-colour error.  The bytes
    are not checked: each channel reads as [channelValue] has it, so two
    hex digits give their value and bytes that do not parse give 0.  Hence
    [ParseColor] does what the specification says on every input but the
    six- and eight-byte strings that are not all hex digits. *)
Theorem ParseColor_as_specified (hex : string) :
  hex <> "" ->
  ParseColor hex = lenientColor hex /\
  ((String.length (stripHash hex) = 6%nat \/ String.length (stripHash hex) = 8%nat ->
    allHex (stripHash hex) = true) ->
   ParseColor hex = specColor hex).
Proof.
  intros Hne. split.
  - apply ParseColor_lenient. exact Hne.
  - apply ParseColor_hex. exact Hne.
Qed.

(** C8, witness: the two colours of the package's test, a string of the
    wrong length, and six bytes with signs and a byte that is no digit. *)
Lemma ParseColor_as_specified_examples :
  ParseColor "#F0F0F0" = Ok (RGBA 240 240 240 255) /\
  ParseColor "#101112CC" = Ok (RGBA 16 17 18 204) /\
  ParseColor "#FFF" = Err (ErrInvalidHex "FFF") /\
  ParseColor "-f+fz1" = Ok (RGBA 241 15 0 255).
Proof.
  split; [| split; [| split]].
  - rewrite (proj2 (ParseColor_as_specified "#F0F0F0" ltac:(discriminate)));
      [reflexivity | intros _; reflexivity].
  - rewrite (proj2 (ParseColor_as_specified "#101112CC" ltac:(discriminate)));
      [reflexivity | intros _; reflexivity].
  - rewrite (proj1 (ParseColor_as_specified "#FFF" ltac:(discriminate))).
    reflexivity.
  - rewrite (proj1 (ParseColor_as_specified "-f+fz1" ltac:(discriminate))).
    reflexivity.
Defined.

(** ** The compositor *)

Lemma rectSide_nonneg (x : Z) : 0 <= x -> rectSide x = x.
Proof. unfold rectSide. destruct (Z.ltb_spec x 0); [lia | reflexivity]. Qed.

(** A pixel buffer is made or the call panics; it returns no error. *)
Lemma pixelBuffer_cases (w : World) (dx dy : Z) :
  (exists n, pixelBuffer w dx dy = Ok n /\ buffered w dx dy = true) \/
  (exists p, pixelBuffer w dx dy = Panic p /\ buffered w dx dy = false /\
             (p = HugeDimensions \/ p = OutOfMemory)).
Proof.
  unfold buffered, pixelBuffer.
  destruct (mul3NonNeg 4 dx dy <? 0).
  - right. exists HugeDimensions. auto.
  - destruct ((mul3NonNeg 4 dx dy =? 0) || allocates w (mul3NonNeg 4 dx dy)).
    + left. eexists. split; reflexivity.
    + right. exists OutOfMemory. auto.
Qed.

(** The buffer of an image with positive sides is made when its byte count
    fits an [int] and the runtime provides it. *)
Lemma buffered_fits (w : World) (dx dy : Z) :
  0 < dx -> 0 < dy -> 4 * dx * dy <= Int64.max ->
  allocates w (4 * dx * dy) = true -> buffered w dx dy = true.
Proof.
  intros Hx Hy Hmax Halloc. unfold buffered, pixelBuffer, mul3NonNeg.
  unfold Int64.max in Hmax.
  destruct (Z.ltb_spec dx 0); [lia |]. destruct (Z.ltb_spec dy 0); [lia |].
  cbn [Z.ltb Z.compare orb].
  destruct (Z.geb_spec (4 * dx) (2 ^ 64)); [nia |].
  destruct (Z.geb_spec (4 * dx * dy) (2 ^ 64)); [lia |].
  destruct (Z.geb_spec (4 * dx * dy) (2 ^ 63)); [lia |].
  destruct (Z.ltb_spec (4 * dx * dy) 0); [lia |].
  rewrite Halloc, orb_true_r. reflexivity.
Qed.

Lemma New_empty (w : World) (width height : Z) :
  width <= 0 \/ height <= 0 ->
  New w width height = Ok {| Width := 0; Height := 0; Pasted := [] |}.
Proof.
  intros H. unfold New.
  destruct (Z.leb_spec width 0), (Z.leb_spec height 0); try reflexivity. lia.
Qed.

Lemma New_buffered (w : World) (width height : Z) :
  0 < width -> 0 < height -> buffered w width height = true ->
  New w width height = Ok {| Width := width; Height := height; Pasted := [] |}.
Proof.
  intros Hw Hh Hb. unfold New.
  destruct (Z.leb_spec width 0); [lia |]. destruct (Z.leb_spec height 0); [lia |].
  cbn [orb]. rewrite !rectSide_nonneg by lia.
  destruct (pixelBuffer_cases w width height) as [(n & -> & _) | (p & _ & Hf & _)];
    [reflexivity | congruence].
Qed.

(** The canvas as [imaging.New] returns it when it returns. *)
Lemma New_cases (w : World) (width height : Z) :
  (exists canvas, New w width height = Ok canvas /\ Pasted canvas = [] /\
     (width <= 0 \/ height <= 0 \/ buffered w width height = true)) \/
  (exists p, New w width height = Panic p /\
     0 < width /\ 0 < height /\ buffered w width height = false /\
     (p = HugeDimensions \/ p = OutOfMemory)).
Proof.
  destruct (Z.leb_spec width 0) as [Hw | Hw].
  { left. eexists. split; [apply New_empty; auto | split; [reflexivity | auto]]. }
  destruct (Z.leb_spec height 0) as [Hh | Hh].
  { left. eexists. split; [apply New_empty; auto | split; [reflexivity | auto]]. }
  destruct (buffered w width height) eqn:Hb.
  { left. eexists. split; [apply New_buffered; assumption | split; [reflexivity | auto]]. }
  right. unfold New.
  destruct (Z.leb_spec width 0); [lia |]. destruct (Z.leb_spec height 0); [lia |].
  cbn [orb]. rewrite !rectSide_nonneg by lia.
  destruct (pixelBuffer_cases w width height) as [(n & _ & Ht) | (p & -> & _ & Hp)];
    [congruence |].
  exists p. auto.
Qed.

(** The ways a label rendering panics. *)
Lemma renderLabel_panic_inv (w : World) (bg : option Color) (text : string) (p : panic) :
  renderLabel w bg text = Panic p ->
  (p = NilDereference /\ bg = None /\ labelBuffer w text = true) \/
  ((p = HugeDimensions \/ p = OutOfMemory) /\ labelBuffer w text = false).
Proof.
  unfold renderLabel, labelBuffer.
  destruct (measureString w text) as [cause | tw th]; [discriminate |]. cbv zeta.
  destruct (pixelBuffer_cases w (rectSide (Int64.add (Int64.quot tw 256) 4))
              (rectSide (Int64.add (Int64.quot th 256) 4)))
    as [(n & -> & ->) | (q & -> & -> & Hq)]; cbn [bind].
  - destruct (_ || _); cbn [bind].
    + destruct (drawString w text); discriminate.
    + destruct bg; cbn [bind].
      * destruct (drawString w text); discriminate.
      * intros [= <-]. left. auto.
  - intros [= <-]. right. auto.
Qed.

Lemma labelsRender_no_panic
  (w : World) (opts : ThumbOptions) (thumbs : list Thumbnail) (t : Thumbnail) (p : panic) :
  labelsRender w opts thumbs -> OverlayTimestamps opts = true -> In t thumbs ->
  labelOf w opts t <> Panic p.
Proof.
  intros Hl Hon Hin Hp. destruct (Hl Hon) as [Hbg Hbuf].
  rewrite Forall_forall in Hbuf. specialize (Hbuf t Hin).
  unfold labelOf, Render in Hp. apply renderLabel_panic_inv in Hp.
  destruct Hp as [(_ & Hnil & _) | (_ & Hf)]; [| congruence].
  apply Hbg. exact Hnil.
Qed.

Lemma labelsRender_cons
  (w : World) (opts : ThumbOptions) (t : Thumbnail) (rest : list Thumbnail) :
  labelsRender w opts (t :: rest) ->
  labelsRender w opts [t] /\ labelsRender w opts rest.
Proof.
  intros H. split; intros Hon; destruct (H Hon) as [Hbg Hall];
    (split; [exact Hbg |]); inversion Hall; subst; auto.
Qed.

Lemma meets_withTiles (canvas : Canvas) (tiles : list (image * Z * Z))
  (tile : image * Z * Z) :
  meets (withTiles canvas tiles) tile = meets canvas tile.
Proof. destruct tile as [[img x] y]. reflexivity. Qed.

Lemma withTiles_nil (canvas : Canvas) : withTiles canvas [] = canvas.
Proof. destruct canvas. unfold withTiles. cbn. rewrite app_nil_r. reflexivity. Qed.

Lemma withTiles_app (canvas : Canvas) (a b : list (image * Z * Z)) :
  withTiles (withTiles canvas a) b = withTiles canvas (a ++ b).
Proof.
  unfold withTiles. cbn [Width Height Pasted]. f_equal.
  rewrite filter_app, app_assoc. reflexivity.
Qed.

(** [imaging.Paste] in terms of [withTiles]. *)
Lemma Paste_spec (canvas : Canvas) (t : Thumbnail) (img : image) (x y : Z) :
  Image t = Some img -> Paste canvas t x y = Ok (withTiles canvas [(img, x, y)]).
Proof.
  intros Ht. unfold Paste, withTiles. rewrite Ht. cbn [filter meets].
  destruct (missesCanvas canvas x y _ _); cbn [negb].
  - destruct canvas. cbn. rewrite app_nil_r. reflexivity.
  - reflexivity.
Qed.

Section Sheet.

Variables (w : World) (opts : ThumbOptions) (tileWidth tileHeight : Z).

Hypothesis Hcolumns : TileColumns opts <> 0.

Lemma placeTile_spec (canvas : Canvas) (log : list LogRecord) (i : Z) (t : Thumbnail) :
  Image t <> None -> labelsRender w opts [t] ->
  placeTile w opts (sheetRenderer opts) tileWidth tileHeight (canvas, log) i t
  = Ok (withTiles canvas (tileAt w opts tileWidth tileHeight (i, t)),
        (log ++ labelFailure w opts t)%list).
Proof.
  intros Himg Hlabel. unfold placeTile, tileAt, labelled, labelFailure.
  destruct (Z.eqb_spec (TileColumns opts) 0) as [H0 | _]; [contradiction |].
  cbn [fst snd].
  destruct (Image t) as [img |] eqn:Ht; [| contradiction].
  destruct (OverlayTimestamps opts) eqn:Hon.
  - unfold overlayTimestamp. fold (labelOf w opts t).
    destruct (labelOf w opts t) as [label | e | p] eqn:Hl; cbn [bind].
    + rewrite Ht. erewrite Paste_spec by reflexivity. cbn [bind].
      rewrite app_nil_r. reflexivity.
    + rewrite withTiles_nil. reflexivity.
    + exfalso. eapply labelsRender_no_panic; eauto. left. reflexivity.
  - erewrite Paste_spec by exact Ht. cbn [bind]. rewrite app_nil_r. reflexivity.
Qed.

Lemma placeTiles_spec (thumbs : list Thumbnail) :
  forall (canvas : Canvas) (log : list LogRecord) (a : nat),
  Forall (fun t => Image t <> None) thumbs -> labelsRender w opts thumbs ->
  placeTiles w opts (sheetRenderer opts) tileWidth tileHeight
    (canvas, log) (Z.of_nat a) thumbs
  = Ok (withTiles canvas
          (flat_map (tileAt w opts tileWidth tileHeight) (indexed a thumbs)),
        (log ++ flat_map (labelFailure w opts) thumbs)%list).
Proof.
  induction thumbs as [| t rest IH]; intros canvas log a Hall Hlabel.
  - cbn. rewrite withTiles_nil, app_nil_r. reflexivity.
  - inversion Hall as [| ? ? Ht Hrest]; subst.
    destruct (labelsRender_cons _ _ _ _ Hlabel) as [Hl1 Hl2].
    cbn [placeTiles]. rewrite placeTile_spec by assumption. cbn [bind].
    replace (Z.of_nat a + 1) with (Z.of_nat (S a)) by lia.
    rewrite IH by assumption.
    rewrite withTiles_app. unfold indexed. cbn. rewrite <- !app_assoc. reflexivity.
Qed.

End Sheet.

Lemma mul_wrap_r (a b : Z) : Int64.wrap (a * Int64.wrap b) = Int64.wrap (a * b).
Proof. rewrite Z.mul_comm, Int64Facts.mul_wrap_l. f_equal. lia. Qed.

(** The corner and the canvas side, up to wrap-around. *)
Lemma corner_wrap (padding tile k : Z) :
  corner padding tile k = Int64.wrap (padding + k * (tile + padding)).
Proof.
  unfold corner, Int64.add, Int64.mul.
  rewrite Int64Facts.add_wrap_r, Int64Facts.add_wrap_l.
  replace (padding + Int64.wrap (k * tile) + k * padding)
    with (padding + k * padding + Int64.wrap (k * tile)) by lia.
  rewrite Int64Facts.add_wrap_r. f_equal. lia.
Qed.

Lemma side_wrap (tile count padding : Z) :
  Int64.add (Int64.mul tile count) (Int64.mul (Int64.add count 1) padding)
  = Int64.wrap (count * tile + (count + 1) * padding).
Proof.
  unfold Int64.add, Int64.mul.
  rewrite Int64Facts.mul_wrap_l, Int64Facts.add_wrap_r, Int64Facts.add_wrap_l.
  f_equal. lia.
Qed.

Lemma corner_exact (padding tile k : Z) :
  0 <= padding -> 0 <= tile -> 0 <= k ->
  padding + k * (tile + padding) <= Int64.max ->
  corner padding tile k = padding + k * (tile + padding).
Proof.
  intros Hp Ht Hk Hmax. rewrite corner_wrap. apply Int64Facts.wrap_id.
  unfold Int64.in_range, Int64.min, Int64.max in *. nia.
Qed.

(** The row count is the ceiling of [count / columns]. *)
Lemma rowCount_ceiling (w : World) (count columns : Z) :
  0 <= count <= Int64.max -> 0 < columns ->
  rowCount w count columns = - (- count / columns) /\
  (rowCount w count columns - 1) * columns < count
  <= rowCount w count columns * columns.
Proof.
  intros Hn Hc.
  assert (Hq : Qceiling (inject_Z count / inject_Z columns) = - (- count / columns)).
  { destruct columns as [| q | q]; try lia.
    unfold Qceiling, Qfloor, Qdiv, Qmult, Qinv, Qopp, inject_Z. cbn.
    rewrite Z.mul_1_r. reflexivity. }
  pose proof (Z.div_mod (- count) columns ltac:(lia)) as Hdm.
  pose proof (Z.mod_pos_bound (- count) columns Hc) as Hmod.
  assert (Hr : 0 <= - (- count / columns) <= count) by nia.
  unfold rowCount. destruct (Z.eqb_spec columns 0); [lia |].
  rewrite Hq.
  assert (Hin : Int64.in_rangeb (- (- count / columns)) = true).
  { apply Int64Facts.in_rangeb_spec.
    unfold Int64.in_range, Int64.min, Int64.max in *. lia. }
  rewrite Hin. split; [reflexivity | nia].
Qed.

Lemma grid_cells_disjoint (c p tw th i j : Z) :
  0 < c -> 0 <= p -> 0 <= tw -> 0 <= th -> 0 <= i < j ->
  p + (i mod c) * (tw + p) + tw <= p + (j mod c) * (tw + p) \/
  p + (i / c) * (th + p) + th <= p + (j / c) * (th + p).
Proof.
  intros Hc Hp Htw Hth Hij.
  pose proof (Z.div_mod i c ltac:(lia)) as Hi.
  pose proof (Z.div_mod j c ltac:(lia)) as Hj.
  pose proof (Z.mod_pos_bound i c Hc) as Hmi.
  pose proof (Z.mod_pos_bound j c Hc) as Hmj.
  assert (Hle : i / c <= j / c) by (apply Z.div_le_mono; lia).
  destruct (Z.eq_dec (i / c) (j / c)) as [Heq | Hne].
  - left. assert (i mod c + 1 <= j mod c) by nia. nia.
  - right. assert (i / c + 1 <= j / c) by lia. nia.
Qed.

Lemma makeContactSheet_spec
  (w : World) (opts : ThumbOptions) (first : Thumbnail) (rest : list Thumbnail)
  (img0 : image) (canvas0 : Canvas) :
  Image first = Some img0 -> Forall (fun t => Image t <> None) rest ->
  TileColumns opts <> 0 ->
  let thumbs := first :: rest in
  labelsRender w opts thumbs ->
  New w (sheetWidth opts (Dx img0))
        (sheetHeight w opts (Dy img0) (Z.of_nat (List.length thumbs))) = Ok canvas0 ->
  makeContactSheet w thumbs opts
  = Ok (withTiles canvas0
          (flat_map (tileAt w opts (Dx img0) (Dy img0)) (indexed 0 thumbs)),
        flat_map (labelFailure w opts) thumbs).
Proof.
  intros Himg Hrest Hc thumbs Hlabel Hnew.
  unfold sheetWidth, sheetHeight in Hnew. cbv zeta in Hnew.
  unfold makeContactSheet. unfold thumbs in *. cbv zeta.
  rewrite Himg. rewrite !side_wrap.
  rewrite Hnew. cbn [bind]. fold (sheetRenderer opts).
  rewrite (placeTiles_spec w opts (Dx img0) (Dy img0) Hc (first :: rest) _ [] 0%nat).
  - reflexivity.
  - constructor; [rewrite Himg; discriminate | exact Hrest].
  - exact Hlabel.
Qed.

Lemma in_indexed (a : nat) (thumbs : list Thumbnail) (i : Z) (t : Thumbnail) :
  In (i, t) (indexed a thumbs) -> In t thumbs.
Proof. unfold indexed. apply in_combine_r. Qed.

Lemma tile_pasted_or_logged
  (w : World) (opts : ThumbOptions) (tw th i : Z) (t : Thumbnail) :
  Image t <> None -> labelsRender w opts [t] ->
  (List.length (tileAt w opts tw th (i, t))
   + List.length (labelFailure w opts t) = 1)%nat.
Proof.
  intros Ht Hlabel. unfold tileAt, labelled, labelFailure. cbn [snd].
  destruct (Image t); [| contradiction].
  destruct (OverlayTimestamps opts) eqn:Hon; [| reflexivity].
  destruct (labelOf w opts t) as [label | e | p] eqn:Hl; try reflexivity.
  exfalso. eapply labelsRender_no_panic; eauto. left. reflexivity.
Qed.

Lemma pasted_or_logged
  (w : World) (opts : ThumbOptions) (tw th : Z) (thumbs : list Thumbnail) :
  Forall (fun t => Image t <> None) thumbs -> labelsRender w opts thumbs ->
  forall a,
    (List.length (flat_map (tileAt w opts tw th) (indexed a thumbs))
     + List.length (flat_map (labelFailure w opts) thumbs)
     = List.length thumbs)%nat.
Proof.
  induction 1 as [| t rest Ht Hrest IH]; intros Hlabel a.
  - reflexivity.
  - destruct (labelsRender_cons _ _ _ _ Hlabel) as [Hl1 Hl2].
    unfold indexed. cbn [List.length seq map combine flat_map].
    rewrite !length_app. fold (indexed (S a) rest).
    pose proof (tile_pasted_or_logged w opts tw th (Z.of_nat a) t Ht Hl1).
    pose proof (IH Hl2 (S a)). lia.
Qed.




Lemma in_indexed_range (a : nat) (thumbs : list Thumbnail) (i : Z) (t : Thumbnail) :
  In (i, t) (indexed a thumbs) ->
  Z.of_nat a <= i < Z.of_nat a + Z.of_nat (List.length thumbs).
Proof.
  unfold indexed. intros H. apply in_combine_l in H.
  apply in_map_iff in H. destruct H as [k [<- Hk]]. apply in_seq in Hk. lia.
Qed.

Lemma labelFailure_off (w : World) (opts : ThumbOptions) (thumbs : list Thumbnail) :
  OverlayTimestamps opts = false -> flat_map (labelFailure w opts) thumbs = [].
Proof.
  intros Hoff. rewrite <- (flat_map_nil thumbs). apply flat_map_ext_in.
  intros t _. unfold labelFailure. rewrite Hoff. reflexivity.
Qed.

(** *** The grid *)

Lemma filter_all {A : Type} (f : A -> bool) (l : list A) :
  (forall x, In x l -> f x = true) -> filter f l = l.
Proof.
  induction l as [| x l IH]; intros H; [reflexivity |]. cbn [filter].
  rewrite (H x (or_introl eq_refl)). f_equal. apply IH.
  intros y Hy. apply H. right. exact Hy.
Qed.

Lemma ForallOrdPairs_app {A : Type} (R : A -> A -> Prop) (l1 l2 : list A) :
  ForallOrdPairs R l1 -> ForallOrdPairs R l2 ->
  (forall a b, In a l1 -> In b l2 -> R a b) ->
  ForallOrdPairs R (l1 ++ l2).
Proof.
  induction 1 as [| a l1 Ha H1 IH]; intros H2 Hx; [exact H2 |].
  cbn [app]. constructor.
  - apply Forall_app. split; [exact Ha |].
    apply Forall_forall. intros b Hb. apply Hx; [left; reflexivity | exact Hb].
  - apply IH; [exact H2 |]. intros x y Hin Hy. apply Hx; [right |]; assumption.
Qed.

Lemma ForallOrdPairs_flat_map {A B : Type} (Q : A -> A -> Prop) (R : B -> B -> Prop)
  (f : A -> list B) (l : list A) :
  (forall x, In x l -> ForallOrdPairs R (f x)) ->
  (forall x y a b, In x l -> In y l -> Q x y -> In a (f x) -> In b (f y) -> R a b) ->
  ForallOrdPairs Q l -> ForallOrdPairs R (flat_map f l).
Proof.
  intros Hf HR. induction 1 as [| x l Hx Hl IH]; [constructor |].
  cbn [flat_map]. apply ForallOrdPairs_app.
  - apply Hf. left. reflexivity.
  - apply IH.
    + intros y Hy. apply Hf. right. exact Hy.
    + intros y z a b Hy Hz. apply HR; right; assumption.
  - intros a b Ha Hb. apply in_flat_map in Hb. destruct Hb as (y & Hy & Hb).
    rewrite Forall_forall in Hx.
    apply (HR x y); [left; reflexivity | right; exact Hy | apply Hx; exact Hy
                    | exact Ha | exact Hb].
Qed.

Lemma ForallOrdPairs_impl {A : Type} (R R' : A -> A -> Prop) (l : list A) :
  (forall a b, R a b -> R' a b) -> ForallOrdPairs R l -> ForallOrdPairs R' l.
Proof.
  intros H. induction 1 as [| a l Ha Hl IH]; constructor; [| exact IH].
  eapply Forall_impl; [| exact Ha]. apply H.
Qed.

Lemma indexed_ordered (thumbs : list Thumbnail) :
  forall a,
    ForallOrdPairs (fun x y => Z.of_nat a <= fst x < fst y) (indexed a thumbs).
Proof.
  induction thumbs as [| t rest IH]; intros a; [constructor |].
  change (indexed a (t :: rest)) with ((Z.of_nat a, t) :: indexed (S a) rest).
  constructor.
  - apply Forall_forall. intros [i t'] Hin. apply in_indexed_range in Hin.
    cbn [fst]. lia.
  - eapply ForallOrdPairs_impl; [| apply (IH (S a))].
    cbn beta. intros x y. lia.
Qed.

(** What the compositor pastes for a thumbnail has the thumbnail's size. *)
Lemma labelled_size (w : World) (opts : ThumbOptions) (t : Thumbnail) (img : image)
  (tw th : Z) :
  labelled w opts t = Some img -> uniform tw th t -> Dx img = tw /\ Dy img = th.
Proof.
  unfold labelled. intros H (img' & Ht & Hx & Hy). rewrite Ht in H.
  destruct (OverlayTimestamps opts).
  - destruct (labelOf w opts t); try discriminate.
    injection H as <-. cbn [Dx Dy]. auto.
  - injection H as <-. auto.
Qed.

(** Every cell of the grid lies on the canvas. *)
Lemma grid_cell_inside (c p tw th rows n i : Z) :
  0 < c -> 0 <= p -> 0 < tw -> 0 < th -> 0 <= i < n -> n <= rows * c ->
  0 <= p + (i mod c) * (tw + p) /\
  p + (i mod c) * (tw + p) + tw <= c * tw + (c + 1) * p /\
  0 <= p + (i / c) * (th + p) /\
  p + (i / c) * (th + p) + th <= rows * th + (rows + 1) * p.
Proof.
  intros Hc Hp Htw Hth Hi Hn.
  pose proof (Z.div_mod i c ltac:(lia)) as Hdm.
  pose proof (Z.mod_pos_bound i c Hc) as Hmod.
  assert (Hdiv : 0 <= i / c <= rows - 1).
  { split; [apply Z.div_pos; lia |].
    assert (i / c < rows); [| lia].
    apply Z.div_lt_upper_bound; nia. }
  repeat split; nia.
Qed.

Section Grid.

Variables (w : World) (opts : ThumbOptions) (first : Thumbnail)
  (rest : list Thumbnail) (img0 : image).

Hypothesis Himg : Image first = Some img0.
Hypothesis Hsize : Forall (uniform (Dx img0) (Dy img0)) rest.
Hypothesis Hc : 0 < TileColumns opts.
Hypothesis Hp : 0 <= Padding opts.
Hypothesis Htw : 0 < Dx img0.
Hypothesis Hth : 0 < Dy img0.
Hypothesis Hn : Z.of_nat (List.length (first :: rest)) <= Int64.max.
Hypothesis Hfit :
  4 * gridWidth opts (Dx img0)
    * gridHeight w opts (Dy img0) (Z.of_nat (List.length (first :: rest)))
  <= Int64.max.
Hypothesis Halloc :
  allocates w
    (4 * gridWidth opts (Dx img0)
       * gridHeight w opts (Dy img0) (Z.of_nat (List.length (first :: rest))))
  = true.
Hypothesis Hlabel : labelsRender w opts (first :: rest).

Lemma grid_rows :
  1 <= rowCount w (Z.of_nat (List.length (first :: rest))) (TileColumns opts) /\
  (rowCount w (Z.of_nat (List.length (first :: rest))) (TileColumns opts) - 1)
    * TileColumns opts
  < Z.of_nat (List.length (first :: rest))
  <= rowCount w (Z.of_nat (List.length (first :: rest))) (TileColumns opts)
     * TileColumns opts.
Proof.
  destruct (rowCount_ceiling w (Z.of_nat (List.length (first :: rest)))
              (TileColumns opts) ltac:(lia) Hc) as [_ Hrows].
  split; [| exact Hrows]. cbn [List.length] in *. nia.
Qed.

Lemma grid_sides :
  0 < gridWidth opts (Dx img0) <= Int64.max /\
  0 < gridHeight w opts (Dy img0) (Z.of_nat (List.length (first :: rest)))
  <= Int64.max.
Proof.
  pose proof grid_rows as [Hrows _]. pose proof Hfit as Hf.
  unfold gridWidth, gridHeight in *. cbv zeta in *.
  set (rows := rowCount _ _ _) in *.
  set (W := TileColumns opts * Dx img0 + (TileColumns opts + 1) * Padding opts) in *.
  set (H := rows * Dy img0 + (rows + 1) * Padding opts) in *.
  assert (HW : 0 < W) by (unfold W; nia).
  assert (HH : 0 < H) by (unfold H; nia).
  unfold Int64.max in *. nia.
Qed.

Lemma sheet_sides :
  sheetWidth opts (Dx img0) = gridWidth opts (Dx img0) /\
  sheetHeight w opts (Dy img0) (Z.of_nat (List.length (first :: rest)))
  = gridHeight w opts (Dy img0) (Z.of_nat (List.length (first :: rest))).
Proof.
  destruct grid_sides as [HW HH].
  unfold sheetWidth, sheetHeight, gridWidth, gridHeight in *. cbv zeta in *.
  split; apply Int64Facts.wrap_id;
    unfold Int64.in_range, Int64.min, Int64.max in *; lia.
Qed.

Lemma grid_all_uniform : Forall (uniform (Dx img0) (Dy img0)) (first :: rest).
Proof.
  constructor; [| exact Hsize]. exists img0. auto.
Qed.

Lemma grid_all_images : Forall (fun t => Image t <> None) (first :: rest).
Proof.
  eapply Forall_impl; [| exact grid_all_uniform].
  intros t (img & Ht & _). rewrite Ht. discriminate.
Qed.

(** On the grid the corners the code computes are the exact ones. *)
Lemma tileAt_grid (i : Z) (t : Thumbnail) :
  In (i, t) (indexed 0 (first :: rest)) ->
  tileAt w opts (Dx img0) (Dy img0) (i, t) = gridTile w opts (Dx img0) (Dy img0) (i, t).
Proof.
  intros Hin. apply in_indexed_range in Hin.
  destruct grid_rows as [_ Hrows]. destruct grid_sides as [HW HH].
  unfold gridWidth, gridHeight in HW, HH. cbv zeta in HW, HH.
  assert (Hi : 0 <= i < Z.of_nat (List.length (first :: rest))) by lia.
  destruct (grid_cell_inside (TileColumns opts) (Padding opts) (Dx img0) (Dy img0)
              _ _ i Hc Hp Htw Hth Hi (proj2 Hrows)) as (Hx0 & Hx1 & Hy0 & Hy1).
  pose proof (Z.mod_pos_bound i (TileColumns opts) Hc) as Hmod.
  assert (Hdiv : 0 <= i / TileColumns opts) by (apply Z.div_pos; lia).
  unfold tileAt, gridTile. cbn [fst snd].
  destruct (labelled w opts t); [| reflexivity].
  unfold Int64.rem. rewrite Z.rem_mod_nonneg by lia.
  rewrite Int64Facts.quot_nonneg by lia.
  rewrite !corner_exact; try lia; reflexivity.
Qed.

(** Every tile of the grid lies within the canvas, and is drawn. *)
Lemma gridTile_inside (i : Z) (t : Thumbnail) (tile : image * Z * Z) :
  In (i, t) (indexed 0 (first :: rest)) ->
  In tile (gridTile w opts (Dx img0) (Dy img0) (i, t)) ->
  inside (gridWidth opts (Dx img0))
         (gridHeight w opts (Dy img0) (Z.of_nat (List.length (first :: rest)))) tile /\
  forall pasted,
    meets {| Width := gridWidth opts (Dx img0);
             Height := gridHeight w opts (Dy img0)
                         (Z.of_nat (List.length (first :: rest)));
             Pasted := pasted |} tile = true.
Proof.
  intros Hin Htile.
  pose proof (in_indexed _ _ _ _ Hin) as Ht.
  pose proof grid_all_uniform as Hu. rewrite Forall_forall in Hu.
  specialize (Hu t Ht).
  apply in_indexed_range in Hin.
  destruct grid_rows as [_ Hrows]. destruct grid_sides as [HW HH].
  unfold gridWidth, gridHeight in *. cbv zeta in *.
  assert (Hi : 0 <= i < Z.of_nat (List.length (first :: rest))) by lia.
  destruct (grid_cell_inside (TileColumns opts) (Padding opts) (Dx img0) (Dy img0)
              _ _ i Hc Hp Htw Hth Hi (proj2 Hrows)) as (Hx0 & Hx1 & Hy0 & Hy1).
  unfold gridTile in Htile. cbn [fst snd] in Htile.
  destruct (labelled w opts t) as [img |] eqn:Hl; [| destruct Htile].
  destruct Htile as [<- | []].
  destruct (labelled_size _ _ _ _ _ _ Hl Hu) as [Hdx Hdy].
  split.
  - unfold inside. rewrite Hdx, Hdy. lia.
  - intros pasted. unfold meets, missesCanvas, Int64.add. cbn [Width Height].
    rewrite Hdx, Hdy.
    rewrite !Int64Facts.wrap_id
      by (unfold Int64.in_range, Int64.min, Int64.max in *; lia).
    apply negb_true_iff, orb_false_iff. split; apply Z.leb_gt; lia.
Qed.

(** The sheet the compositor returns on the grid. *)
Lemma sheet_on_grid :
  makeContactSheet w (first :: rest) opts
  = Ok ({| Width := gridWidth opts (Dx img0);
           Height := gridHeight w opts (Dy img0)
                       (Z.of_nat (List.length (first :: rest)));
           Pasted := flat_map (gridTile w opts (Dx img0) (Dy img0))
                       (indexed 0 (first :: rest)) |},
        flat_map (labelFailure w opts) (first :: rest)).
Proof.
  destruct grid_sides as [HW HH]. destruct sheet_sides as [HsW HsH].
  rewrite (makeContactSheet_spec w opts first rest img0
             {| Width := gridWidth opts (Dx img0);
                Height := gridHeight w opts (Dy img0)
                            (Z.of_nat (List.length (first :: rest)));
                Pasted := [] |}).
  - f_equal. f_equal. unfold withTiles. cbn [Width Height Pasted app]. f_equal.
    rewrite (flat_map_ext_in (tileAt w opts (Dx img0) (Dy img0))
               (gridTile w opts (Dx img0) (Dy img0)))
      by (intros [i t] Hin; apply tileAt_grid; exact Hin).
    apply filter_all. intros tile Hin. apply in_flat_map in Hin.
    destruct Hin as ([i t] & Hit & Htile).
    apply (proj2 (gridTile_inside i t tile Hit Htile)).
  - exact Himg.
  - pose proof grid_all_images as Hall. inversion Hall; assumption.
  - lia.
  - exact Hlabel.
  - rewrite HsW, HsH. apply New_buffered; try lia.
    apply buffered_fits; try lia; assumption.
Qed.

End Grid.

(** C9, counterexample: with the padding -5, which nothing rejects, two
    tiles in two columns are drawn 535 pixels apart though they are 540
    wide: they overlap. *)
Lemma negative_padding_tiles_overlap :
  makeContactSheet (video 100) [tile 0; tile 1000]
    {| From := 0; To := 0; TileColumns := 2; TileCount := 0;
       Interval := 60 * Second; TileWidth := 540; TileHeight := 0;
       OverlayTimestamps := false; TimestampBackground := Some Transparent;
       Padding := -5 |}
  = Ok ({| Width := 1065; Height := 294;
           Pasted := [(Raster 540 304 0, -5, -5); (Raster 540 304 1000, 530, -5)] |},
        []) /\
  apart (Raster 540 304 0, -5, -5) (Raster 540 304 1000, 530, -5) = false.
Proof. split; vm_compute; reflexivity. Qed.

(** C9 (amended): for a non-empty list of [n] thumbnails all of the size
    [tw] x [th] of the first, [c > 0] columns, a padding [p >= 0] and a
    canvas whose pixel buffer can be made (and labels that render, when
    overlays are on), the compositor uses [rows = ceil (n / c)], a canvas
    of width [c*tw + (c+1)*p] and height [rows*th + (rows+1)*p], and
    pastes tile [i] with its top-left corner at [x = p + (i mod c)*(tw+p)],
    [y = p + (i / c)*(th+p)]; every thumbnail is pasted when overlays are
    off; every pasted tile lies within the canvas and no two of them
    overlap. *)
Theorem contact_sheet_grid
  (w : World) (opts : ThumbOptions) (first : Thumbnail) (rest : list Thumbnail)
  (img0 : image) :
  let thumbs := first :: rest in
  let n := Z.of_nat (List.length thumbs) in
  let c := TileColumns opts in
  let p := Padding opts in
  let tw := Dx img0 in
  let th := Dy img0 in
  let rows := rowCount w n c in
  let width := c * tw + (c + 1) * p in
  let height := rows * th + (rows + 1) * p in
  let X := fun i => p + (i mod c) * (tw + p) in
  let Y := fun i => p + (i / c) * (th + p) in
  Image first = Some img0 -> Forall (uniform tw th) rest ->
  0 < c -> 0 <= p -> 0 < tw -> 0 < th -> n <= Int64.max ->
  4 * width * height <= Int64.max ->
  allocates w (4 * width * height) = true ->
  labelsRender w opts thumbs ->
  (rows - 1) * c < n <= rows * c /\
  (exists canvas log,
     makeContactSheet w thumbs opts = Ok (canvas, log) /\
     Width canvas = width /\
     Height canvas = height /\
     Pasted canvas
     = flat_map (fun it => match labelled w opts (snd it) with
                           | Some img => [(img, X (fst it), Y (fst it))]
                           | None => []
                           end) (indexed 0 thumbs) /\
     Forall (inside width height) (Pasted canvas) /\
     ForallOrdPairs (fun a b => apart a b = true) (Pasted canvas) /\
     (OverlayTimestamps opts = false ->
      log = [] /\ List.length (Pasted canvas) = List.length thumbs)).
Proof.
  intros thumbs n c p tw th rows width height X Y
    Himg Hsize Hc Hp Htw Hth Hn Hfit Halloc Hlabel.
  pose proof (grid_rows w opts first rest Hc Hn) as [_ Hrows].
  pose proof (grid_all_uniform first rest img0 Himg Hsize) as Hu.
  pose proof (grid_all_images first rest img0 Himg Hsize) as Hall.
  split; [exact Hrows |].
  eexists. eexists. split.
  { apply (sheet_on_grid w opts first rest img0); assumption. }
  cbn [Width Height Pasted].
  split; [reflexivity |]. split; [reflexivity |]. split; [reflexivity |].
  split; [| split].
  - apply Forall_forall. intros tile Hin. apply in_flat_map in Hin.
    destruct Hin as ([i t] & Hit & Htile).
    apply (gridTile_inside w opts first rest img0 Himg Hsize Hc Hp Htw Hth Hn
             Hfit i t tile Hit Htile).
  - apply (ForallOrdPairs_flat_map (fun x y => 0 <= fst x < fst y)).
    + intros [i t] _. unfold gridTile. cbn [fst snd].
      destruct (labelled w opts t); repeat constructor.
    + intros [i t] [j t'] a b Hi Hj Hij Ha Hb. cbn [fst] in Hij.
      pose proof (in_indexed _ _ _ _ Hi) as Ht.
      pose proof (in_indexed _ _ _ _ Hj) as Ht'.
      rewrite Forall_forall in Hu.
      unfold gridTile in Ha, Hb. cbn [fst snd] in Ha, Hb.
      destruct (labelled w opts t) as [img |] eqn:Hl; [| destruct Ha].
      destruct (labelled w opts t') as [img' |] eqn:Hl'; [| destruct Hb].
      destruct Ha as [<- | []]. destruct Hb as [<- | []].
      destruct (labelled_size _ _ _ _ _ _ Hl (Hu t Ht)) as [Hdx Hdy].
      destruct (labelled_size _ _ _ _ _ _ Hl' (Hu t' Ht')) as [Hdx' Hdy'].
      unfold apart. rewrite Hdx, Hdy, Hdx', Hdy'.
      destruct (grid_cells_disjoint (TileColumns opts) (Padding opts)
                  (Dx img0) (Dy img0) i j Hc Hp ltac:(lia) ltac:(lia) Hij)
        as [Hx | Hy].
      * apply Z.leb_le in Hx. rewrite Hx. reflexivity.
      * apply Z.leb_le in Hy. rewrite Hy. rewrite !orb_true_r. reflexivity.
    + apply (indexed_ordered thumbs 0%nat).
  - intros Hoff. unfold thumbs in *.
    pose proof (pasted_or_logged w opts tw th (first :: rest) Hall Hlabel 0%nat)
      as Hlen.
    rewrite (labelFailure_off w opts (first :: rest) Hoff) in Hlen |- *.
    rewrite (flat_map_ext_in (tileAt w opts tw th) (gridTile w opts tw th)) in Hlen
      by (intros [i t] Hin;
          apply (tileAt_grid w opts first rest img0 Hc Hp Htw Hth Hn Hfit);
          exact Hin).
    split; [reflexivity |].
    cbn [List.length] in Hlen |- *. rewrite Nat.add_0_r in Hlen. exact Hlen.
Qed.

(** C9, witness: seven tiles in three columns take three rows, and tile 4
    lands in row 1, column 1. *)
Lemma contact_sheet_grid_7_by_3 :
  rowCount (video 100) 7 3 = 3 /\
  exists canvas log,
    makeContactSheet (video 100) sevenTiles (options 0 0 0 (60 * Second))
    = Ok (canvas, log) /\
    Width canvas = 3 * 540 + 4 * 10 /\
    Height canvas = 3 * 304 + 4 * 10 /\
    nth_error (Pasted canvas) 4
    = Some (Raster 540 304 4000, 10 + 1 * (540 + 10), 10 + 1 * (304 + 10)) /\
    ForallOrdPairs (fun a b => apart a b = true) (Pasted canvas).
Proof.
  assert (Hrest : Forall (uniform 540 304) (tl sevenTiles))
    by (repeat constructor; eexists; repeat split; reflexivity).
  destruct (contact_sheet_grid (video 100) (options 0 0 0 (60 * Second))
              (tile 0) (tl sevenTiles) (Raster 540 304 0) eq_refl Hrest)
    as (Hrows & canvas & log & Hok & HW & HH & Hpasted & _ & Hapart & _);
    [evaluate .. | discriminate |].
  split; [reflexivity |].
  exists canvas, log. split; [exact Hok |].
  split; [rewrite HW; reflexivity |]. split; [rewrite HH; reflexivity |].
  split; [rewrite Hpasted; reflexivity | exact Hapart].
Defined.

(** ** Further properties of the planner and of [Generate] *)

Lemma timing_ok_inv (opts : ThumbOptions) (d start interval n : Z) :
  Int64.in_range (window opts d) ->
  timing opts d = Ok (start, interval, n) ->
  start = From opts /\ Interval opts <= window opts d /\ n <> 0 /\
  interval = Int64.quot (window opts d) n /\
  n = (if Interval opts =? 0 then TileCount opts
       else Int64.quot (window opts d) (Interval opts)).
Proof.
  intros Hfit. unfold timing. rewrite (timing_window opts d Hfit).
  destruct (Z.gtb_spec (Interval opts) (window opts d)) as [Hgt | Hle];
    [discriminate |].
  destruct (Z.eqb_spec (Interval opts) 0) as [H0 | Hn0]; cbn [negb bind].
  - destruct (Z.eqb_spec (TileCount opts) 0); [discriminate |].
    intros [= <- <- <-]. repeat split; try assumption; reflexivity.
  - destruct (Z.eqb_spec (Int64.quot (window opts d) (Interval opts)) 0);
      [discriminate |].
    intros [= <- <- <-]. repeat split; try assumption; reflexivity.
Qed.

Lemma timing_panic_inv (opts : ThumbOptions) (d : Z) (p : panic) :
  timing opts d = Panic p -> p = DivideByZero.
Proof.
  unfold timing.
  destruct (Interval opts >? _); [discriminate |].
  destruct (negb (Interval opts =? 0)); cbn [bind].
  - destruct (Int64.quot _ (Interval opts) =? 0); [| discriminate].
    intros [= <-]. reflexivity.
  - destruct (TileCount opts =? 0); [| discriminate].
    intros [= <-]. reflexivity.
Qed.

(** X1: on a positive window, whenever the planner produces samples they start
    at [from], are spaced [window / n] apart for the [n] planned tiles, and
    each one leaves a full spacing before the end of the window: nothing
    is sampled at or past the end. *)
Theorem samples_within_window (opts : ThumbOptions) (d : Z) (plan : list Z) :
  Int64.in_range (From opts) -> Int64.in_range (sampleEnd opts d) ->
  0 < window opts d <= Int64.max ->
  samplePlan opts d = Ok plan -> plan <> [] ->
  exists n,
    0 < n /\
    plan = map (fun k => From opts + Z.of_nat k * (window opts d / n))
               (seq 0 (Z.to_nat n)) /\
    forall t, In t plan ->
      From opts <= t /\ t + window opts d / n <= sampleEnd opts d.
Proof.
  intros Hs He Hw Hplan Hne.
  assert (Hfit : Int64.in_range (window opts d))
    by (unfold Int64.in_range, Int64.min, Int64.max in *; lia).
  destruct (samplePlan_inv _ _ _ Hplan) as (start & interval & n & Htiming & ->).
  destruct (timing_ok_inv _ _ _ _ _ Hfit Htiming) as (-> & _ & _ & -> & _).
  assert (Hn : 0 < n).
  { destruct (Z.to_nat n) eqn:Hz; [| lia].
    exfalso. apply Hne. unfold indices. rewrite Hz. reflexivity. }
  rewrite Int64Facts.quot_nonneg by lia.
  assert (Hsp : 0 <= window opts d / n) by (apply Z.div_pos; lia).
  assert (Hmul : n * (window opts d / n) <= window opts d)
    by (apply Z.mul_div_le; lia).
  assert (Heq : map (sampleTime (From opts) (window opts d / n)) (indices n)
                = map (fun k => From opts + Z.of_nat k * (window opts d / n))
                      (seq 0 (Z.to_nat n))).
  { apply samples_exact with (win := window opts d); try assumption; try lia.
    unfold window. replace (From opts + (sampleEnd opts d - From opts))
      with (sampleEnd opts d) by lia. assumption. }
  exists n. split; [exact Hn |]. split; [exact Heq |].
  intros t Ht. rewrite Heq in Ht. apply in_map_iff in Ht.
  destruct Ht as [k [<- Hk]]. apply in_seq in Hk.
  unfold window in *. nia.
Qed.

(** X1, witness: one sample a minute over 125 seconds; the last sample, at
    62.5s, leaves 62.5s before the end. *)
Lemma samples_within_window_60_125 :
  0 <= 62500 * Millisecond /\
  62500 * Millisecond + 62500 * Millisecond <= 125 * Second.
Proof.
  destruct (samples_within_window (options 0 0 0 (60 * Second)) (125 * Second)
              [0; 62500 * Millisecond])
    as (n & Hn & Hplan & Hin); [evaluate .. | discriminate |].
  assert (n = 2) as ->.
  { apply (f_equal (@List.length Z)) in Hplan.
    rewrite length_map, length_seq in Hplan. cbn in Hplan. lia. }
  specialize (Hin (62500 * Millisecond) (or_intror (or_introl eq_refl))).
  vm_compute in Hin |- *. exact Hin.
Defined.

Lemma flat_map_eq_nil {A B : Type} (f : A -> list B) (l : list A) (a : A) :
  flat_map f l = [] -> In a l -> f a = [].
Proof.
  induction l as [| b l IH]; simpl; intros H Hin; [destruct Hin |].
  apply app_eq_nil in H. destruct H as [Hb Hl].
  destruct Hin as [-> | Hin]; [exact Hb | apply IH; assumption].
Qed.

(** What a successful call went through. *)
Lemma MakeThumbnails_ok_inv
  (w : World) (order : list nat) (opts : ThumbOptions) (thumbs : list Thumbnail) :
  MakeThumbnails w order opts = Ok thumbs ->
  exists d start interval n,
    Validate opts = None /\ checkFfmpegInstalled w = None /\
    readDuration w = Ok d /\ timing opts d = Ok (start, interval, n) /\
    let tasks := map (extractTask w opts start interval) (indices n) in
    flat_map (errorOf tasks) order = [] /\
    thumbs = map thumb (SortFunc (fun a b => Index a <? Index b)
                          (flat_map (resultOf tasks) order)).
Proof.
  unfold MakeThumbnails.
  destruct (Validate opts) eqn:Hv; [discriminate |].
  destruct (checkFfmpegInstalled w) eqn:Hi; [discriminate |].
  destruct (readDuration w) as [d | |] eqn:Hd; [| discriminate | discriminate].
  destruct (timing opts d) as [[[start interval] n] | |] eqn:Ht; cbn [bind];
    [| discriminate | discriminate].
  rewrite Wait_eq.
  destruct (flat_map (errorOf _) order) eqn:Herrs; [| discriminate].
  intros [= <-]. exists d, start, interval, n.
  split; [reflexivity |]. split; [reflexivity |]. split; [reflexivity |].
  split; [exact Ht |]. split; [exact Herrs | reflexivity].
Qed.

(** A returned thumbnail always holds a decoded image, whatever the
    completion order. *)
Lemma MakeThumbnails_images
  (w : World) (order : list nat) (opts : ThumbOptions) (thumbs : list Thumbnail) :
  MakeThumbnails w order opts = Ok thumbs ->
  Forall (fun t => Image t <> None) thumbs.
Proof.
  intros H. destruct (MakeThumbnails_ok_inv _ _ _ _ H)
    as (d & start & interval & n & _ & _ & _ & _ & Herrs & ->).
  apply Forall_map.
  eapply Permutation_Forall; [symmetry; apply (SortFunc_perm Index) |].
  apply Forall_forall. intros r Hr. apply in_flat_map in Hr.
  destruct Hr as (k & Hk & Hr).
  pose proof (flat_map_eq_nil _ _ _ Herrs Hk) as He.
  unfold resultOf in Hr. unfold errorOf in He.
  destruct (nth_error _ k) as [[r' e] |] eqn:Hnth; [| destruct Hr].
  destruct Hr as [<- | []]. cbn [fst].
  apply nth_error_In, in_map_iff in Hnth. destruct Hnth as (i & Hi & _).
  unfold extractTask in Hi.
  destruct (extractThumbnail w _ _ _) as [err | th] eqn:Hth.
  - inversion Hi; subst. discriminate He.
  - inversion Hi; subst. cbn [thumb].
    apply extractThumbnail_ok in Hth. tauto.
Qed.

Lemma MakeThumbnails_panic_inv
  (w : World) (order : list nat) (opts : ThumbOptions) (p : panic) :
  MakeThumbnails w order opts = Panic p -> p = DivideByZero.
Proof.
  unfold MakeThumbnails.
  destruct (Validate opts); [discriminate |].
  destruct (checkFfmpegInstalled w); [discriminate |].
  unfold readDuration. destruct (ffprobe w); try discriminate.
  destruct (timing opts _) as [[[start interval] n] | |] eqn:Ht; cbn [bind];
    try discriminate.
  - destruct (Wait _ order) as [rs [e |]]; discriminate.
  - intros [= <-]. eapply timing_panic_inv. exact Ht.
Qed.

Lemma MakeThumbnails_panic_timing
  (w : World) (order : list nat) (opts : ThumbOptions) (p : panic) :
  MakeThumbnails w order opts = Panic p ->
  p = DivideByZero /\
  exists d, readDuration w = Ok d /\ timing opts d = Panic DivideByZero.
Proof.
  intros H. pose proof (MakeThumbnails_panic_inv _ _ _ _ H) as ->.
  split; [reflexivity |]. revert H. unfold MakeThumbnails.
  destruct (Validate opts); [discriminate |].
  destruct (checkFfmpegInstalled w); [discriminate |].
  destruct (readDuration w) as [d | e | q] eqn:Hd; [| discriminate |].
  - destruct (timing opts d) as [[[start interval] n] | |] eqn:Ht; cbn [bind];
      try discriminate.
    + destruct (Wait _ order) as [rs [e |]]; discriminate.
    + intros [= ->]. exists d. auto.
  - revert Hd. unfold readDuration. destruct (ffprobe w); discriminate.
Qed.

(** With zero columns the compositor does not return: the first pass
    through the loop divides by zero, unless [imaging.New] has panicked
    before it, which a padding that is not positive rules out. *)
Lemma makeContactSheet_zero_columns
  (w : World) (opts : ThumbOptions) (first : Thumbnail) (rest : list Thumbnail) :
  Image first <> None -> TileColumns opts = 0 ->
  exists p,
    makeContactSheet w (first :: rest) opts = Panic p /\
    (p = DivideByZero \/ p = HugeDimensions \/ p = OutOfMemory) /\
    (Int64.min <= Padding opts <= 0 -> p = DivideByZero).
Proof.
  intros Himg H0. unfold makeContactSheet.
  destruct (Image first) as [img0 |]; [| contradiction]. rewrite H0.
  match goal with
  | |- context [New w ?width ?height] =>
      assert (Hwidth : width = Int64.wrap (Padding opts));
      [| destruct (New_cases w width height)
           as [(canvas & Hnew & _) | (p & Hnew & Hpos & _ & _ & Hp)];
         rewrite Hnew; cbn [bind]]
  end.
  - unfold Int64.add, Int64.mul. rewrite Z.mul_0_r.
    change (Int64.wrap 0) with 0. change (Int64.wrap (0 + 1)) with 1.
    rewrite Z.mul_1_l, Int64Facts.add_wrap_r. reflexivity.
  - exists DivideByZero. cbn [placeTiles]. unfold placeTile. rewrite H0.
    cbn [Z.eqb bind]. auto.
  - exists p. split; [reflexivity |]. split; [tauto |].
    intros Hpad. exfalso. rewrite Hwidth in Hpos.
    rewrite Int64Facts.wrap_id in Hpos
      by (unfold Int64.in_range, Int64.min, Int64.max in *; lia).
    lia.
Qed.

(** The ways the loop of the compositor panics on thumbnails that hold
    images. *)
Lemma placeTiles_panic_inv
  (w : World) (opts : ThumbOptions) (tw th : Z) (thumbs : list Thumbnail) :
  Forall (fun t => Image t <> None) thumbs ->
  forall st i p,
    placeTiles w opts (sheetRenderer opts) tw th st i thumbs = Panic p ->
    (p = DivideByZero /\ TileColumns opts = 0) \/
    (OverlayTimestamps opts = true /\
     ((p = NilDereference /\ TimestampBackground opts = None) \/
      ((p = HugeDimensions \/ p = OutOfMemory) /\
       exists t, In t thumbs /\
                 labelBuffer w (formatDuration (Timestamp t)) = false))).
Proof.
  induction 1 as [| t rest Ht Hrest IH]; intros st i p; cbn [placeTiles];
    [discriminate |].
  destruct (placeTile w opts (sheetRenderer opts) tw th st i t)
    as [st' | e | q] eqn:Hstep; cbn [bind].
  - intros H. destruct (IH _ _ _ H) as [Hd | (Hon & [Hnil | (Hp & t' & Hin & Hb)])];
      [left; exact Hd | right; auto | right].
    split; [exact Hon |]. right. split; [exact Hp |]. exists t'. split; [right |]; auto.
  - discriminate.
  - intros [= <-]. revert Hstep. unfold placeTile. destruct st as [canvas log].
    destruct (Z.eqb_spec (TileColumns opts) 0) as [H0 | _].
    { intros [= <-]. left. auto. }
    destruct (Image t) as [img |] eqn:Himg; [| contradiction].
    destruct (OverlayTimestamps opts) eqn:Hon.
    + unfold overlayTimestamp. fold (labelOf w opts t).
      destruct (labelOf w opts t) as [label | e | q'] eqn:Hl; cbn [bind].
      * rewrite Himg. erewrite Paste_spec by reflexivity. discriminate.
      * discriminate.
      * intros [= <-]. right. split; [reflexivity |].
        unfold labelOf, Render in Hl. apply renderLabel_panic_inv in Hl.
        destruct Hl as [(-> & Hnil & _) | (Hq & Hb)]; [left; auto |].
        right. split; [exact Hq |]. exists t. split; [left; reflexivity | exact Hb].
    + erewrite Paste_spec by exact Himg. discriminate.
Qed.

(** X5: [Generate] never indexes an empty thumbnail list and never touches a
    thumbnail without image.  It panics in three ways only: an integer
    division by zero (a zero tile count, or zero columns), a nil background
    colour asked for its components (overlays on), or a pixel buffer, of
    the canvas or of a label, that cannot be made. *)
Theorem Generate_panic_causes
  (w : World) (order : list nat) (opts : ThumbOptions) (p : panic) :
  Generate w order opts = Panic p ->
  (p = DivideByZero /\
   (TileColumns opts = 0 \/
    exists d, readDuration w = Ok d /\ timing opts d = Panic DivideByZero)) \/
  (p = NilDereference /\
   OverlayTimestamps opts = true /\ TimestampBackground opts = None) \/
  p = HugeDimensions \/ p = OutOfMemory.
Proof.
  unfold Generate.
  destruct (MakeThumbnails w order opts) as [thumbs | e | q] eqn:Hmk.
  - pose proof (MakeThumbnails_images _ _ _ _ Hmk) as Hall.
    destruct thumbs as [| first rest]; [discriminate |]. cbn [List.length Nat.eqb].
    unfold makeContactSheet.
    inversion Hall as [| ? ? Hfirst Hrest]; subst.
    destruct (Image first) as [img0 |] eqn:Himg; [| contradiction].
    match goal with
    | |- context [New w ?width ?height] =>
        destruct (New_cases w width height)
          as [(canvas & Hnew & _) | (q & Hnew & _ & _ & _ & Hq)];
        rewrite Hnew; cbn [bind]
    end.
    + fold (sheetRenderer opts). intros Hloop.
      apply placeTiles_panic_inv in Hloop; [| exact Hall].
      destruct Hloop as [(-> & H0) | (Hon & [(-> & Hnil) | (Hp & _)])];
        [left; auto | right; left; auto | right; right; exact Hp].
    + intros [= <-]. right. right. exact Hq.
  - discriminate.
  - intros [= <-]. left.
    destruct (MakeThumbnails_panic_timing _ _ _ _ Hmk) as [-> Hd]. auto.
Qed.

(** X5, witness: two frames to label on a background that is nil. *)
Lemma Generate_panic_causes_nil_background :
  Generate (video 125) [1; 0]%nat nilBackground = Panic NilDereference /\
  OverlayTimestamps nilBackground = true /\
  TimestampBackground nilBackground = None.
Proof.
  assert (H : Generate (video 125) [1; 0]%nat nilBackground = Panic NilDereference)
    by (vm_compute; reflexivity).
  split; [exact H |].
  destruct (Generate_panic_causes _ _ _ _ H)
    as [(Hp & _) | [(_ & Hcause) | [Hp | Hp]]];
    [discriminate Hp | exact Hcause | discriminate Hp | discriminate Hp].
Defined.

Lemma flat_map_all_nil {A B : Type} (f : A -> list B) (l : list A) :
  (forall a, f a = []) -> flat_map f l = [].
Proof.
  intros H. induction l as [| a l IH]; simpl; [reflexivity |].
  rewrite H, IH. reflexivity.
Qed.

(** X3: a negative tile count (no interval, a window that is not negative)
    passes every check: nothing is extracted, [MakeThumbnails] returns the
    empty list with a nil error, and [Generate] reports "generated 0
    images". *)
Theorem negative_tile_count_yields_nothing
  (w : World) (order : list nat) (opts : ThumbOptions) (d : Z) :
  checkFfmpegInstalled w = None -> readDuration w = Ok d ->
  Interval opts = 0 -> TileCount opts < 0 ->
  0 <= window opts d <= Int64.max ->
  MakeThumbnails w order opts = Ok [] /\
  Generate w order opts = Err ErrZeroImages.
Proof.
  intros Hinst Hdur Hi Hn Hw.
  assert (Hfit : Int64.in_range (window opts d))
    by (unfold Int64.in_range, Int64.min, Int64.max in *; lia).
  assert (Hvalid : Validate opts = None).
  { unfold Validate. rewrite Hi. unfold window, sampleEnd in Hw. revert Hw.
    destruct (Z.eqb_spec (From opts) 0), (Z.eqb_spec (To opts) 0),
      (Z.gtb_spec (From opts) (To opts)); simpl; intros; try reflexivity; lia. }
  assert (Hmk : MakeThumbnails w order opts = Ok []).
  { rewrite (MakeThumbnails_pool w opts d (From opts)
               (Int64.quot (window opts d) (TileCount opts)) (TileCount opts)
               Hvalid Hinst Hdur).
    - rewrite Wait_eq. unfold indices.
      replace (Z.to_nat (TileCount opts)) with 0%nat by lia. cbn [seq map].
      assert (He : flat_map (errorOf []) order = []).
      { apply flat_map_all_nil. intros k. unfold errorOf.
        destruct k; reflexivity. }
      assert (Hr : flat_map (resultOf []) order = []).
      { apply flat_map_all_nil. intros k. unfold resultOf.
        destruct k; reflexivity. }
      rewrite He, Hr. reflexivity.
    - apply timing_by_count; try assumption; lia. }
  split; [exact Hmk |]. unfold Generate. rewrite Hmk. reflexivity.
Qed.

(** X3, witness: [TileCount = -3] on a 100s video. *)
Lemma negative_tile_count_yields_nothing_minus_3 :
  MakeThumbnails (video 100) [0; 1; 2]%nat (options 0 0 (-3) 0) = Ok [] /\
  Generate (video 100) [0; 1; 2]%nat (options 0 0 (-3) 0) = Err ErrZeroImages.
Proof.
  apply (negative_tile_count_yields_nothing (video 100) [0; 1; 2]%nat
           (options 0 0 (-3) 0) (100 * Second)); evaluate.
Defined.

(** X6: the column count is never validated: once at least one frame has been
    extracted, zero columns make [Generate] panic, whatever row count the
    platform makes of the infinite quotient: on [i / columns] at the first
    tile, or before that in [imaging.New] when the canvas, then one padding
    wide, has a pixel buffer that cannot be made.  With a padding that is
    not positive the canvas is empty and the panic is the division by
    zero. *)
Theorem zero_columns_panic
  (w : World) (order : list nat) (opts : ThumbOptions) (thumbs : list Thumbnail) :
  MakeThumbnails w order opts = Ok thumbs -> thumbs <> [] ->
  TileColumns opts = 0 ->
  exists p,
    Generate w order opts = Panic p /\
    (p = DivideByZero \/ p = HugeDimensions \/ p = OutOfMemory) /\
    (Int64.min <= Padding opts <= 0 -> p = DivideByZero).
Proof.
  intros Hmk Hne H0. unfold Generate. rewrite Hmk.
  pose proof (MakeThumbnails_images _ _ _ _ Hmk) as Hall.
  destruct thumbs as [| first rest]; [contradiction |].
  cbn [List.length Nat.eqb].
  inversion Hall; subst.
  apply makeContactSheet_zero_columns; assumption.
Qed.

(** X6, witness: two frames, zero columns, no padding. *)
Lemma zero_columns_panic_two_frames :
  Generate (video 125) [1; 0]%nat
    {| From := 0; To := 0; TileColumns := 0; TileCount := 0;
       Interval := 60 * Second; TileWidth := 540; TileHeight := 0;
       OverlayTimestamps := false; TimestampBackground := Some Transparent;
       Padding := 0 |}
  = Panic DivideByZero.
Proof.
  destruct (zero_columns_panic (video 125) [1; 0]%nat
              {| From := 0; To := 0; TileColumns := 0; TileCount := 0;
                 Interval := 60 * Second; TileWidth := 540; TileHeight := 0;
                 OverlayTimestamps := false;
                 TimestampBackground := Some Transparent; Padding := 0 |}
              [tile 0; tile 62500])
    as (p & Hp & _ & Hdiv); [reflexivity | discriminate | reflexivity |].
  rewrite Hp. f_equal. apply Hdiv. cbn [Padding]. unfold Int64.min. lia.
Defined.





(** X7: end to end: when the plan has at least one sample, every sample
    extracts to a frame of one positive size, the columns are positive,
    the padding is not negative, the canvas has a pixel buffer that can be
    made and the labels render, [Generate] returns a contact sheet of the
    grid's size on which every sample is either pasted, within the canvas,
    or, its label having failed, logged; with overlays off every sample is
    pasted. *)
Theorem Generate_pastes_or_logs_every_sample
  (w : World) (order : list nat) (opts : ThumbOptions) (d start interval n : Z)
  (fw fh : Z) :
  let width := gridWidth opts fw in
  let height := gridHeight w opts fh n in
  Validate opts = None -> checkFfmpegInstalled w = None ->
  readDuration w = Ok d -> timing opts d = Ok (start, interval, n) ->
  0 < n <= Int64.max -> Permutation order (seq 0 (Z.to_nat n)) ->
  (forall i, In i (indices n) ->
     exists th, extractAt w opts start interval i = inr th /\ uniform fw fh th) ->
  0 < TileColumns opts -> 0 <= Padding opts -> 0 < fw -> 0 < fh ->
  4 * width * height <= Int64.max ->
  allocates w (4 * width * height) = true ->
  (OverlayTimestamps opts = true ->
   TimestampBackground opts <> None /\
   forall i, In i (indices n) ->
     labelBuffer w (formatDuration (sampleTime start interval i)) = true) ->
  exists canvas log,
    Generate w order opts = Ok (canvas, log) /\
    Width canvas = width /\ Height canvas = height /\
    Forall (inside width height) (Pasted canvas) /\
    (List.length (Pasted canvas) + List.length log = Z.to_nat n)%nat /\
    (OverlayTimestamps opts = false ->
     log = [] /\ List.length (Pasted canvas) = Z.to_nat n).
Proof.
  intros width height Hvalid Hinst Hdur Htiming Hn Horder Hframes Hc Hp Hfw Hfh
    Hfit Halloc Hlabels.
  assert (Hall : forall i, In i (indices n) ->
                   exists th, extractAt w opts start interval i = inr th).
  { intros i Hi. destruct (Hframes i Hi) as (th & Hth & _). eauto. }
  pose proof (MakeThumbnails_succeeded w opts d start interval n
                Hvalid Hinst Hdur Htiming order Horder Hall) as Hmk.
  assert (Hlen : List.length (map (thumbAt w opts start interval) (indices n))
                 = Z.to_nat n) by (rewrite length_map; apply length_indices).
  assert (Hu : Forall (uniform fw fh) (map (thumbAt w opts start interval) (indices n))).
  { apply Forall_map, Forall_forall. intros i Hi.
    destruct (Hframes i Hi) as (th & Hth & Huni). unfold thumbAt. rewrite Hth.
    exact Huni. }
  assert (Hlabel : labelsRender w opts (map (thumbAt w opts start interval) (indices n))).
  { intros Hon. destruct (Hlabels Hon) as [Hbg Hbuf]. split; [exact Hbg |].
    apply Forall_map, Forall_forall. intros i Hi.
    destruct (Hall i Hi) as [th Hth]. unfold thumbAt. rewrite Hth.
    unfold extractAt in Hth. apply extractThumbnail_ok in Hth.
    destruct Hth as [-> _]. apply Hbuf. exact Hi. }
  unfold Generate. rewrite Hmk.
  destruct (map (thumbAt w opts start interval) (indices n))
    as [| first rest] eqn:Hthumbs; [cbn in Hlen; lia |].
  cbn [List.length Nat.eqb].
  inversion Hu as [| ? ? (img0 & Himg & Hdx & Hdy) Hrest]; subst.
  assert (Hcount : Z.of_nat (List.length (first :: rest)) = n) by lia.
  assert (Hcmax : Z.of_nat (List.length (first :: rest)) <= Int64.max) by lia.
  unfold width, height in *. rewrite <- Hcount in Hfit, Halloc |- *.
  pose proof (grid_all_images first rest img0 Himg Hrest) as Himgs.
  rewrite (sheet_on_grid w opts first rest img0 Himg Hrest Hc Hp Hfw Hfh Hcmax
             Hfit Halloc Hlabel).
  eexists. eexists. split; [reflexivity |]. cbn [Width Height Pasted].
  split; [reflexivity |]. split; [reflexivity |].
  pose proof (pasted_or_logged w opts (Dx img0) (Dy img0) (first :: rest)
                Himgs Hlabel 0%nat) as Hsplit.
  rewrite (flat_map_ext_in (tileAt w opts (Dx img0) (Dy img0))
             (gridTile w opts (Dx img0) (Dy img0))) in Hsplit
    by (intros [i t] Hin;
        apply (tileAt_grid w opts first rest img0 Hc Hp Hfw Hfh Hcmax Hfit);
        exact Hin).
  rewrite !Nat2Z.id.
  split; [| split; [exact Hsplit |]].
  - apply Forall_forall. intros tile Hin. apply in_flat_map in Hin.
    destruct Hin as ([i t] & Hit & Htile).
    apply (gridTile_inside w opts first rest img0 Himg Hrest Hc Hp Hfw Hfh Hcmax
             Hfit i t tile Hit Htile).
  - intros Hoff. rewrite (labelFailure_off w opts _ Hoff) in Hsplit |- *.
    split; [reflexivity |]. rewrite <- Hsplit. cbn [List.length]. lia.
Qed.

(** X7, witness: two samples of a 125s video on one sheet. *)
Lemma Generate_pastes_or_logs_every_sample_two :
  exists canvas log,
    Generate (video 125) [1; 0]%nat (options 0 0 0 (60 * Second))
    = Ok (canvas, log) /\
    Width canvas = 3 * 540 + 4 * 10 /\ Height canvas = 304 + 2 * 10 /\
    log = [] /\ List.length (Pasted canvas) = 2%nat.
Proof.
  destruct (Generate_pastes_or_logs_every_sample (video 125) [1; 0]%nat
              (options 0 0 0 (60 * Second)) (125 * Second)
              0 (62500 * Millisecond) 2 540 304)
    as (canvas & log & Hok & HW & HH & _ & _ & Hoff); try reflexivity.
  - evaluate.
  - apply perm_swap.
  - intros i _. eexists. split; [reflexivity |].
    eexists. repeat split; reflexivity.
  - evaluate.
  - discriminate.
  - discriminate.
  - exists canvas, log. split; [exact Hok |].
    split; [rewrite HW; reflexivity |]. split; [rewrite HH; reflexivity |].
    apply Hoff. reflexivity.
Defined.

(** ** Labels *)

Lemma fmt02d_two_digits (n : Z) : 0 <= n < 100 -> fmt02d n = twoDigits n.
Proof.
  intros Hn.
  assert (Hall : forallb (fun k => String.eqb (fmt02d (Z.of_nat k))
                                     (twoDigits (Z.of_nat k)))
                   (seq 0 100) = true) by (vm_compute; reflexivity).
  rewrite forallb_forall in Hall.
  specialize (Hall (Z.to_nat n)). rewrite Z2Nat.id in Hall by lia.
  apply String.eqb_eq, Hall, in_seq. lia.
Qed.

Lemma clock_parts (h m s f : Z) :
  0 <= h -> 0 <= m < 60 -> 0 <= s < 60 -> 0 <= f < Second ->
  h * Hour + m * Minute + s * Second + f <= Int64.max ->
  let d := h * Hour + m * Minute + s * Second + f in
  Int64.quot d Hour = h /\
  Int64.sub d (Int64.mul h Hour) = m * Minute + s * Second + f /\
  Int64.quot (m * Minute + s * Second + f) Minute = m /\
  Int64.sub (m * Minute + s * Second + f) (Int64.mul m Minute) = s * Second + f /\
  Int64.quot (s * Second + f) Second = s.
Proof.
  intros Hh Hm Hs Hf Hmax d. unfold d.
  unfold Hour, Minute, Second, Millisecond, Microsecond, Nanosecond,
    Int64.max in *.
  assert (Hq : forall a b q r, 0 <= a <= 2 ^ 63 - 1 -> 0 < b ->
                 a = b * q + r -> 0 <= r < b -> Int64.quot a b = q).
  { intros a b q r Ha Hb Heq Hr. rewrite Int64Facts.quot_nonneg.
    - symmetry. apply (Z.div_unique a b q r); [lia | exact Heq].
    - unfold Int64.max. exact Ha.
    - exact Hb. }
  assert (Hw : forall z, 0 <= z <= 2 ^ 63 - 1 -> Int64.wrap z = z).
  { intros z Hz. apply Int64Facts.wrap_id.
    unfold Int64.in_range, Int64.min, Int64.max. lia. }
  repeat split.
  - apply (Hq _ _ h (m * (60 * (1000 * (1000 * (1000 * 1))))
                     + s * (1000 * (1000 * (1000 * 1))) + f)); lia.
  - unfold Int64.sub, Int64.mul. rewrite (Hw (h * _)) by lia.
    rewrite Hw by lia. lia.
  - apply (Hq _ _ m (s * (1000 * (1000 * (1000 * 1))) + f)); lia.
  - unfold Int64.sub, Int64.mul. rewrite (Hw (m * _)) by lia.
    rewrite Hw by lia. lia.
  - apply (Hq _ _ s f); lia.
Qed.

(** X8: the label of a non-negative duration below 100 hours is the clock
    reading [HH:MM:SS] of its whole seconds, eight bytes long; the
    sub-second part does not show. *)
Theorem formatDuration_clock (h m s f : Z) :
  0 <= h < 100 -> 0 <= m < 60 -> 0 <= s < 60 -> 0 <= f < Second ->
  formatDuration (h * Hour + m * Minute + s * Second + f)
  = twoDigits h ++ ":" ++ twoDigits m ++ ":" ++ twoDigits s /\
  String.length (formatDuration (h * Hour + m * Minute + s * Second + f)) = 8%nat.
Proof.
  intros Hh Hm Hs Hf.
  assert (Hmax : h * Hour + m * Minute + s * Second + f <= Int64.max).
  { unfold Hour, Minute, Second, Millisecond, Microsecond, Nanosecond,
      Int64.max in *. lia. }
  destruct (clock_parts h m s f ltac:(lia) Hm Hs Hf Hmax)
    as (H1 & H2 & H3 & H4 & H5).
  assert (Heq : formatDuration (h * Hour + m * Minute + s * Second + f)
                = twoDigits h ++ ":" ++ twoDigits m ++ ":" ++ twoDigits s).
  { unfold formatDuration. rewrite H1, H2, H3, H4, H5.
    rewrite !fmt02d_two_digits by lia. reflexivity. }
  split; [exact Heq |]. rewrite Heq. reflexivity.
Qed.

(** X8, witness: 1h 2m 3.5s reads 01:02:03. *)
Lemma formatDuration_clock_01_02_03 :
  formatDuration (1 * Hour + 2 * Minute + 3 * Second + 500 * Millisecond)
  = "01:02:03".
Proof.
  destruct (formatDuration_clock 1 2 3 (500 * Millisecond)) as [H _];
    [evaluate .. |].
  rewrite H. reflexivity.
Defined.

(** ** More on colours *)

Lemma uint8_range (x : Z) : 0 <= uint8 x < 256.
Proof. unfold uint8. apply Z.mod_pos_bound. lia. Qed.

(** X9: whatever the input, a colour [ParseColor] returns as RGBA has its four
    channels within 0..255, and a six-byte input is always opaque. *)
Theorem ParseColor_channels (hex : string) (r g b a : Z) :
  ParseColor hex = Ok (RGBA r g b a) ->
  0 <= r < 256 /\ 0 <= g < 256 /\ 0 <= b < 256 /\ 0 <= a < 256 /\
  (String.length (stripHash hex) = 6%nat -> a = 255).
Proof.
  destruct (String.eqb hex "transparent") eqn:Ht.
  { unfold ParseColor. rewrite Ht. discriminate. }
  destruct hex as [| c rest]; [discriminate |].
  rewrite ParseColor_stripped by (discriminate || assumption). cbv zeta.
  destruct (String.length (stripHash (String c rest)) =? 6)%nat eqn:H6.
  - intros [= <- <- <- <-].
    repeat split; try apply uint8_range; reflexivity.
  - destruct (String.length (stripHash (String c rest)) =? 8)%nat;
      [| discriminate].
    intros [= <- <- <- <-].
    repeat split; try apply uint8_range.
    intros H. rewrite H in H6. discriminate.
Qed.

(** X9, witness: a sign is read as part of a channel, and the negative value
    wraps into range. *)
Lemma ParseColor_channels_signed :
  ParseColor "-f+f-1" = Ok (RGBA 241 15 255 255) /\ 0 <= 241 < 256.
Proof.
  assert (H : ParseColor "-f+f-1" = Ok (RGBA 241 15 255 255)) by reflexivity.
  split; [exact H |].
  exact (proj1 (ParseColor_channels _ _ _ _ _ H)).
Defined.

(** X10, witness: eight bytes, none a hex digit. *)
Lemma ParseColor_length_decides_eight :
  exists c, ParseColor "#nonsense" = Ok c.
Proof.
  apply ParseColor_length_decides;
    [discriminate | reflexivity | right; reflexivity].
Defined.

(** ** The sequential revision against the pool *)

(** X11: the duration the prober returns is a whole number of seconds, so the
    truncation [duration.Truncate(time.Second)] of the sequential revision
    changes nothing (as long as the seconds fit in a [time.Duration]). *)
Theorem probed_duration_is_whole (w : World) (q : Q) :
  ffprobe w = ProbeSeconds (Finite q) ->
  Int64.in_range (Second * Z.quot (Qnum q) (Zpos (Qden q))) ->
  exists d,
    readDuration w = Ok d /\ Z.rem d Second = 0 /\
    Sequential.Truncate d Second = d.
Proof.
  intros Hp Hr. eexists. split.
  { apply readDuration_whole_seconds; eassumption. }
  assert (Hrem : Z.rem (Second * Z.quot (Qnum q) (Zpos (Qden q))) Second = 0).
  { rewrite Z.mul_comm. apply Z.rem_mul. discriminate. }
  split; [exact Hrem |].
  unfold Sequential.Truncate. cbn [Z.leb].
  change (Second <=? 0) with false. cbv iota.
  unfold Int64.sub, Int64.rem. rewrite Hrem, Z.sub_0_r.
  apply Int64Facts.wrap_id. exact Hr.
Qed.

(** X11, witness: a probe of 3.5 seconds. *)
Lemma probed_duration_is_whole_3_5 :
  exists d, readDuration (video (7 # 2)) = Ok d /\ Z.rem d Second = 0.
Proof.
  destruct (probed_duration_is_whole (video (7 # 2)) (7 # 2))
    as (d & Hd & Hrem & _); [reflexivity | evaluate |].
  exists d. split; assumption.
Defined.

(** Both revisions run the same extraction. *)
Lemma sequential_extract (w : World) (t width height : Z) :
  match Sequential.extractThumbnail w t width height,
        extractThumbnail w t width height with
  | inl e, inl e' => e = e'
  | inr img, inr th => Image th = Some img /\ Timestamp th = t
  | _, _ => False
  end.
Proof.
  unfold Sequential.extractThumbnail, extractThumbnail.
  destruct (if width =? 0 then (-1, height)
            else if height =? 0 then (width, -1) else (width, height)) as [w' h'].
  destruct (ffmpeg w (Milliseconds t) w' h'); cbn; auto.
Qed.

(** With overlays off the sequential loop runs to its end, appending one
    image for every sample that extracts. *)
Lemma extractAll_off (w : World) (opts : ThumbOptions) (start interval : Z)
  (ks : list Z) :
  OverlayTimestamps opts = false ->
  forall thumbnails,
  exists images,
    Sequential.extractAll w opts start interval ks thumbnails = Ok images /\
    (List.length images + List.length (failures w opts start interval ks)
     = List.length thumbnails + List.length ks)%nat.
Proof.
  intros Hoff. induction ks as [| i ks IH]; intros thumbnails.
  - exists thumbnails. split; [reflexivity |]. cbn. lia.
  - cbn [Sequential.extractAll failures flat_map].
    fold (failures w opts start interval ks).
    unfold Sequential.extractOne, extractAt. rewrite Hoff.
    pose proof (sequential_extract w (sampleTime start interval i)
                  (TileWidth opts) (TileHeight opts)) as Hsame.
    destruct (Sequential.extractThumbnail w _ _ _) as [e | img],
      (extractThumbnail w _ _ _) as [e' | th]; try destruct Hsame; cbn [bind].
    + destruct (IH thumbnails) as (images & Hok & Hlen).
      exists images. split; [exact Hok |]. cbn [List.length app]. lia.
    + destruct (IH (thumbnails ++ [img])%list) as (images & Hok & Hlen).
      exists images. split; [exact Hok |].
      rewrite length_app in Hlen. cbn [List.length app] in *. lia.
Qed.

(** X12: where the pool fails the whole call, the sequential revision (overlays
    off) skips the samples whose extraction fails: it returns, with a nil
    error, as many images as samples extracted. *)
Theorem sequential_skips_failed_samples
  (w : World) (opts : ThumbOptions) (d start interval n : Z) :
  Validate opts = None -> checkFfmpegInstalled w = None ->
  readDuration w = Ok d ->
  timing opts (Sequential.Truncate d Second) = Ok (start, interval, n) ->
  OverlayTimestamps opts = false ->
  exists images,
    Sequential.MakeThumbnails w opts = Ok images /\
    (List.length images
     + List.length (failures w opts start interval (indices n))
     = Z.to_nat n)%nat.
Proof.
  intros Hvalid Hinst Hdur Htiming Hoff.
  destruct (extractAll_off w opts start interval (indices n) Hoff [])
    as (images & Hok & Hlen).
  exists images. split.
  - unfold Sequential.MakeThumbnails.
    rewrite Hvalid, Hinst, Hdur, Htiming. exact Hok.
  - rewrite length_indices in Hlen. exact Hlen.
Qed.

(** X12, witness: of two samples the first fails; one image comes back. *)
Lemma sequential_skips_failed_samples_first :
  exists images,
    Sequential.MakeThumbnails (damagedVideo 125 100) (options 0 0 0 (60 * Second))
    = Ok images /\
    (List.length images + 1 = 2)%nat.
Proof.
  destruct (sequential_skips_failed_samples (damagedVideo 125 100)
              (options 0 0 0 (60 * Second)) (125 * Second)
              0 (62500 * Millisecond) 2 eq_refl eq_refl eq_refl eq_refl eq_refl)
    as (images & Hok & Hlen).
  exists images. split; [exact Hok | exact Hlen].
Defined.

(** ** The command line *)

Module cliFacts.

Import cli.

Local Open Scope list_scope.

Lemma store_middle {A : Type} (pre rest : list A) (x y : A) :
  store (pre ++ x :: rest) (List.length pre) y = Some (pre ++ y :: rest).
Proof.
  induction pre as [| p pre IH]; simpl; [reflexivity |].
  rewrite IH. reflexivity.
Qed.

Lemma nth_error_middle {A : Type} (pre rest : list A) (x : A) :
  nth_error (pre ++ x :: rest) (List.length pre) = Some x.
Proof.
  induction pre as [| p pre IH]; simpl; [reflexivity | exact IH].
Qed.

Lemma swap_ends {A : Type} (pre mid post : list A) (a b : A) :
  swap (pre ++ a :: mid ++ b :: post)
    (Z.of_nat (List.length pre))
    (Z.of_nat (List.length pre + List.length mid + 1))
  = Some (pre ++ b :: mid ++ a :: post).
Proof.
  unfold swap.
  destruct (Z.ltb_spec (Z.of_nat (List.length pre)) 0); [lia |].
  destruct (Z.ltb_spec (Z.of_nat (List.length pre + List.length mid + 1)) 0);
    [lia |].
  cbn [orb]. rewrite !Nat2Z.id.
  rewrite nth_error_middle.
  assert (Hj : (List.length pre + List.length mid + 1
                = List.length (pre ++ a :: mid))%nat)
    by (rewrite length_app; cbn [List.length]; lia).
  assert (Hj' : (List.length pre + List.length mid + 1
                 = List.length (pre ++ b :: mid))%nat)
    by (rewrite length_app; cbn [List.length]; lia).
  replace (pre ++ a :: mid ++ b :: post)
    with ((pre ++ a :: mid) ++ b :: post) at 1
    by (rewrite <- app_assoc; reflexivity).
  rewrite Hj at 1. rewrite nth_error_middle.
  rewrite store_middle.
  replace (pre ++ b :: mid ++ b :: post)
    with ((pre ++ b :: mid) ++ b :: post)
    by (rewrite <- app_assoc; reflexivity).
  rewrite Hj'. rewrite store_middle. rewrite <- app_assoc. reflexivity.
Qed.

Lemma reverseLoop_spec {A : Type} (fuel : nat) :
  forall (pre mid post : list A),
    (List.length mid <= 2 * fuel + 1)%nat ->
    reverseLoop fuel (pre ++ mid ++ post)
      (Z.of_nat (List.length pre))
      (Z.of_nat (List.length pre + List.length mid) - 1)
    = Some (pre ++ rev mid ++ post).
Proof.
  induction fuel as [| fuel IH]; intros pre mid post Hlen.
  - destruct mid as [| a [| b mid]]; cbn [List.length] in Hlen; try lia;
      cbn [reverseLoop List.length].
    + destruct (Z.ltb_spec (Z.of_nat (List.length pre))
                  (Z.of_nat (List.length pre + 0) - 1)); [lia | reflexivity].
    + destruct (Z.ltb_spec (Z.of_nat (List.length pre))
                  (Z.of_nat (List.length pre + 1) - 1)); [lia | reflexivity].
  - destruct mid as [| a mid].
    + cbn [reverseLoop List.length].
      destruct (Z.ltb_spec (Z.of_nat (List.length pre))
                  (Z.of_nat (List.length pre + 0) - 1)); [lia | reflexivity].
    + destruct (exists_last (l := a :: mid) ltac:(discriminate)) as (body & b & Hbody).
      destruct body as [| a' body].
      * cbn in Hbody. inversion Hbody; subst. cbn [reverseLoop List.length].
        destruct (Z.ltb_spec (Z.of_nat (List.length pre))
                    (Z.of_nat (List.length pre + 1) - 1)); [lia | reflexivity].
      * cbn in Hbody. inversion Hbody; subst a' mid.
        assert (Hl : List.length (a :: body ++ [b]) = (List.length body + 2)%nat)
          by (cbn [List.length]; rewrite length_app; cbn [List.length]; lia).
        rewrite Hl in *. cbn [reverseLoop].
        destruct (Z.ltb_spec (Z.of_nat (List.length pre))
                    (Z.of_nat (List.length pre + (List.length body + 2)) - 1));
          [| lia].
        replace (Z.of_nat (List.length pre + (List.length body + 2)) - 1)
          with (Z.of_nat (List.length pre + List.length body + 1)) by lia.
        replace (pre ++ (a :: body ++ [b]) ++ post)
          with (pre ++ a :: body ++ b :: post)
          by (cbn [app]; rewrite <- app_assoc; reflexivity).
        rewrite swap_ends.
        replace (pre ++ b :: body ++ a :: post)
          with ((pre ++ [b]) ++ body ++ a :: post)
          by (rewrite <- app_assoc; reflexivity).
        replace (Z.of_nat (List.length pre) + 1)
          with (Z.of_nat (List.length (pre ++ [b])))
          by (rewrite length_app; cbn [List.length]; lia).
        replace (Z.of_nat (List.length pre + List.length body + 1) - 1)
          with (Z.of_nat (List.length (pre ++ [b]) + List.length body) - 1)
          by (rewrite length_app; cbn [List.length]; lia).
        rewrite IH by lia.
        cbn [rev]. rewrite rev_app_distr. cbn [rev app].
        rewrite <- !app_assoc. reflexivity.
Qed.

Lemma reverse_rev {A : Type} (s : list A) : reverse s = Some (rev s).
Proof.
  unfold reverse.
  pose proof (reverseLoop_spec (List.length s) [] s [] ltac:(lia)) as H.
  cbn [app List.length] in H. rewrite !app_nil_r in H.
  replace (Z.of_nat (0 + List.length s)) with (Z.of_nat (List.length s)) in H
    by (f_equal; lia).
  exact H.
Qed.

(** X13: [reverse] never indexes out of range; it returns the slice in reverse
    order, and reversing twice gives the slice back. *)
Theorem reverse_reverses {A : Type} (s : list A) :
  reverse s = Some (rev s) /\
  forall s', reverse s = Some s' -> reverse s' = Some s.
Proof.
  split; [apply reverse_rev |].
  intros s' H. rewrite reverse_rev in H. injection H as <-.
  rewrite reverse_rev, rev_involutive. reflexivity.
Qed.

(** X13, witness: the components of "01:02:03". *)
Lemma reverse_reverses_clock :
  reverse ["01"; "02"; "03"]%string = Some ["03"; "02"; "01"]%string /\
  reverse ["03"; "02"; "01"]%string = Some ["01"; "02"; "03"]%string.
Proof.
  destruct (reverse_reverses ["01"; "02"; "03"]%string) as [Hrev Hback].
  split; [exact Hrev | apply Hback; exact Hrev].
Defined.


(** Settles the tests [len(parts) > k] on a list with a known number of
    leading elements. *)
Ltac length_test :=
  repeat match goal with
    | |- context [Z.of_nat (List.length ?l) >? ?k] =>
        let H := fresh in
        destruct (Z.gtb_spec (Z.of_nat (List.length l)) k) as [H | H];
        cbn [List.length] in H; try lia; clear H
    end.

Section DurationFacts.

Variable ParseDuration : string -> option Z.
Variable TrimSpace : string -> string.

Lemma Duration_colon (d : string) :
  d <> "" -> ParseDuration d = None ->
  Duration ParseDuration TrimSpace d = fromParts (rev (Split (TrimSpace d))).
Proof.
  intros Hne Hp. unfold Duration.
  destruct (String.eqb_spec d ""); [contradiction |].
  rewrite Hp, reverse_rev. reflexivity.
Qed.

Lemma index_0 (p : string) (parts : list string) : index (p :: parts) 0 = Some p.
Proof. reflexivity. Qed.

Lemma index_1 (p q : string) (parts : list string) :
  index (p :: q :: parts) 1 = Some q.
Proof. reflexivity. Qed.

Lemma index_2 (p q r : string) (parts : list string) :
  index (p :: q :: r :: parts) 2 = Some r.
Proof. reflexivity. Qed.

(** X14: a colon-separated argument that [time.ParseDuration] rejects is read
    from the right as seconds, minutes and hours; components further to
    the left are ignored and absent ones count as zero. *)
Theorem Duration_reads_clock (d : string) (hour minute second : Z) :
  d <> "" -> ParseDuration d = None ->
  component (Split (TrimSpace d)) 2 = (hour, None) ->
  component (Split (TrimSpace d)) 1 = (minute, None) ->
  component (Split (TrimSpace d)) 0 = (second, None) ->
  Duration ParseDuration TrimSpace d
  = Done (Int64.add (Int64.add (Int64.mul hour Hour) (Int64.mul minute Minute))
            (Int64.mul second Second)).
Proof.
  intros Hne Hp Hh Hm Hs. rewrite Duration_colon by assumption.
  unfold component in Hh, Hm, Hs. unfold fromParts.
  destruct (rev (Split (TrimSpace d))) as [| p0 [| p1 [| p2 rest]]];
    cbn [nth_error] in Hh, Hm, Hs; length_test;
    rewrite ?index_0, ?index_1, ?index_2, ?Hh, ?Hm, ?Hs;
    repeat match goal with
      | H : (0, None) = (_, None) |- _ => injection H as <-
      end; reflexivity.
Qed.

End DurationFacts.

(** X14, witness: the three forms of the README, and a fourth component. *)
Lemma Duration_reads_clock_examples :
  Duration (fun _ => None) (fun s => s) "90" = Done (90 * Second) /\
  Duration (fun _ => None) (fun s => s) "1:30" = Done (90 * Second) /\
  Duration (fun _ => None) (fun s => s) "01:02:03"
  = Done (1 * Hour + 2 * Minute + 3 * Second) /\
  Duration (fun _ => None) (fun s => s) "7:01:02:03"
  = Done (1 * Hour + 2 * Minute + 3 * Second).
Proof.
  split; [| split; [| split]].
  - rewrite (Duration_reads_clock (fun _ => None) (fun s => s) "90" 0 0 90); try reflexivity; discriminate.
  - rewrite (Duration_reads_clock (fun _ => None) (fun s => s) "1:30" 0 1 30); try reflexivity; discriminate.
  - rewrite (Duration_reads_clock (fun _ => None) (fun s => s) "01:02:03" 1 2 3); try reflexivity; discriminate.
  - rewrite (Duration_reads_clock (fun _ => None) (fun s => s) "7:01:02:03" 1 2 3); try reflexivity;
      discriminate.
Defined.

Lemma ParseInt_range_value (s : string) (base v : Z) :
  strconv.ParseInt s base = (v, Some strconv.ErrRange) ->
  v = 2 ^ 63 - 1 \/ v = - 2 ^ 63.
Proof.
  unfold strconv.ParseInt. destruct s as [| c rest]; [discriminate |].
  destruct (strconv.ParseUint _ base) as [un [[] |]];
    try discriminate;
    repeat match goal with
      | |- context [if ?b then _ else _] => destruct b
      end; intros [= <-]; auto.
Qed.

Section DurationErrors.

Variable ParseDuration : string -> option Z.
Variable TrimSpace : string -> string.

(** X15: when the hours are no number, the error quotes the seconds component
    ([parts[0]]), not the hours. *)
Theorem Duration_hour_error_quotes_seconds
  (d : string) (comps : list string) (h m s : string) (v : Z)
  (e : strconv.NumError) :
  d <> "" -> ParseDuration d = None ->
  Split (TrimSpace d) = comps ++ [h; m; s] ->
  Atoi h = (v, Some e) ->
  Duration ParseDuration TrimSpace d = Fail (ErrInvalidDuration s "hour").
Proof.
  intros Hne Hp Hsplit Hh. rewrite Duration_colon by assumption.
  rewrite Hsplit, rev_app_distr. cbn [rev app]. unfold fromParts.
  length_test. rewrite index_0, index_2, Hh. reflexivity.
Qed.

(** X16: when the seconds are a number too large for an [int], [Atoi] returns
    the largest (or smallest) [int] with its error, and indexing [parts]
    with it panics instead of reporting the error. *)
Theorem Duration_seconds_overflow_panics
  (d : string) (hour minute v : Z) :
  d <> "" -> ParseDuration d = None ->
  Z.of_nat (List.length (Split (TrimSpace d))) <= Int64.max ->
  component (Split (TrimSpace d)) 2 = (hour, None) ->
  component (Split (TrimSpace d)) 1 = (minute, None) ->
  component (Split (TrimSpace d)) 0 = (v, Some strconv.ErrRange) ->
  Duration ParseDuration TrimSpace d = Crash IndexOutOfRange.
Proof.
  intros Hne Hp Hlen Hh Hm Hs. rewrite Duration_colon by assumption.
  rewrite <- length_rev in Hlen.
  unfold component in Hh, Hm, Hs. unfold fromParts.
  destruct (rev (Split (TrimSpace d))) as [| p0 parts] eqn:Hparts;
    [discriminate Hs |].
  cbn [nth_error] in Hs.
  assert (Hidx : index (p0 :: parts) v = None).
  { destruct (ParseInt_range_value _ _ _ Hs) as [-> | ->]; unfold index.
    - cbn [Z.ltb Z.compare]. change (2 ^ 63 - 1 <? 0) with false. cbv iota.
      apply nth_error_None. unfold Int64.max in Hlen. lia.
    - reflexivity. }
  destruct parts as [| p1 [| p2 rest]];
    cbn [nth_error] in Hh, Hm; length_test;
    rewrite ?index_0, ?index_1, ?index_2, ?Hh, ?Hm, ?Hs;
    try rewrite Hidx; reflexivity.
Qed.

End DurationErrors.

(** X15, witness: letters for the hours of "xx:02:03". *)
Lemma Duration_hour_error_quotes_seconds_xx :
  Duration (fun _ => None) (fun s => s) "xx:02:03"
  = Fail (ErrInvalidDuration "03" "hour").
Proof.
  apply (Duration_hour_error_quotes_seconds (fun _ => None) (fun s => s)
           "xx:02:03" [] "xx" "02" "03" 0 strconv.ErrSyntax);
    [discriminate | reflexivity | reflexivity | reflexivity].
Defined.

(** X16, witness: twenty nines for the seconds. *)
Lemma Duration_seconds_overflow_panics_nines :
  Duration (fun _ => None) (fun s => s) "1:99999999999999999999"
  = Crash IndexOutOfRange.
Proof.
  apply (Duration_seconds_overflow_panics (fun _ => None) (fun s => s)
           "1:99999999999999999999" 0 1 (2 ^ 63 - 1));
    [discriminate | reflexivity | evaluate | reflexivity | reflexivity
    | vm_compute; reflexivity].
Defined.

Lemma placeTiles_no_error
  (w : World) (opts : ThumbOptions) (r : defaultRenderer) (tw th : Z)
  (thumbs : list Thumbnail) :
  forall st i e, placeTiles w opts r tw th st i thumbs <> Err e.
Proof.
  induction thumbs as [| t rest IH]; intros st i e; cbn [placeTiles];
    [discriminate |].
  destruct (placeTile w opts r tw th st i t) as [st' | e' | p] eqn:Hstep;
    cbn [bind]; [apply IH | | discriminate].
  exfalso. revert Hstep. unfold placeTile. destruct st as [canvas log].
  destruct (TileColumns opts =? 0); [discriminate |].
  destruct (OverlayTimestamps opts).
  - destruct (overlayTimestamp w t r) as [t' | e0 | p0]; try discriminate.
    unfold Paste. destruct (Image t'); [destruct (missesCanvas _ _ _ _ _) |];
      discriminate.
  - unfold Paste. destruct (Image t); [destruct (missesCanvas _ _ _ _ _) |];
      discriminate.
Qed.

Lemma Generate_err_inv
  (w : World) (order : list nat) (opts : ThumbOptions) (e : error) :
  Generate w order opts = Err e ->
  e = ErrZeroImages \/
  exists cause, e = ErrMakeThumbnails cause /\ MakeThumbnails w order opts = Err cause.
Proof.
  unfold Generate.
  destruct (MakeThumbnails w order opts) as [thumbs | cause | p];
    [| intros [= <-]; right; eexists; split; reflexivity | discriminate].
  destruct (List.length thumbs =? 0)%nat; [intros [= <-]; left; reflexivity |].
  unfold makeContactSheet. destruct thumbs as [| first rest]; [discriminate |].
  destruct (Image first); [| discriminate].
  match goal with
  | |- context [New w ?width ?height] =>
      destruct (New_cases w width height)
        as [(canvas & Hnew & _) | (q & Hnew & _)];
      rewrite Hnew; cbn [bind]; [| discriminate]
  end.
  intros H. exfalso. eapply placeTiles_no_error. exact H.
Qed.

Lemma timing_err_inv (opts : ThumbOptions) (d : Z) (e : error) :
  timing opts d = Err e -> exists z, e = ErrIntervalLarger z.
Proof.
  unfold timing.
  destruct (Interval opts >? _); [intros [= <-]; eexists; reflexivity |].
  destruct (negb (Interval opts =? 0)); cbn [bind].
  - destruct (Int64.quot _ (Interval opts) =? 0); discriminate.
  - destruct (TileCount opts =? 0); discriminate.
Qed.

Lemma MakeThumbnails_invalid_inv
  (w : World) (order : list nat) (opts : ThumbOptions) (x : error) :
  MakeThumbnails w order opts = Err (ErrInvalidOptions x) -> Validate opts = Some x.
Proof.
  unfold MakeThumbnails.
  destruct (Validate opts); [intros [= <-]; reflexivity |].
  unfold checkFfmpegInstalled.
  destruct (ffmpegInPath w); cbn [negb]; [| discriminate].
  destruct (ffprobeInPath w); cbn [negb]; [| discriminate].
  destruct (readDuration w) as [d | |]; [| discriminate | discriminate].
  destruct (timing opts d) as [[[start interval] n] | e | p] eqn:Ht; cbn [bind].
  - rewrite Wait_eq. destruct (flat_map (errorOf _) order); discriminate.
  - destruct (timing_err_inv _ _ _ Ht) as [z ->]. discriminate.
  - discriminate.
Qed.

Section RunFacts.

Variable ParseDuration : string -> option Z.
Variable TrimSpace : string -> string.

(** X17: [Run] never sets a tile count, so of the two complaints of [Validate]
    only "starting point cannot be after ending point" can reach the user
    of the command line. *)
Theorem Run_reports_only_range_as_invalid
  (w : World) (order : list nat) (a : cliArgs) (x : error) :
  Run ParseDuration TrimSpace w order a
  = Fail (ErrGenerateThumbnails (ErrMakeThumbnails (ErrInvalidOptions x))) ->
  x = ErrStartAfterEnd.
Proof.
  unfold cli.Run.
  destruct (Duration ParseDuration TrimSpace (argFrom a)) as [from | |]; try discriminate.
  destruct (Duration ParseDuration TrimSpace (argTo a)) as [to | |]; try discriminate.
  destruct (ParseColor (OverlayBackground a)) as [color | |]; try discriminate.
  destruct (Generate w order (optionsOf a from to color)) as [img | e | p] eqn:Hgen;
    try discriminate.
  intros [= ->].
  destruct (Generate_err_inv _ _ _ _ Hgen) as [H | (cause & [= <-] & Hmk)];
    [discriminate |].
  apply MakeThumbnails_invalid_inv in Hmk. revert Hmk.
  unfold Validate, optionsOf. cbn [From To Interval TileCount].
  destruct (negb (from =? 0) && negb (to =? 0) && (from >? to));
    [intros [= <-]; reflexivity |].
  rewrite andb_false_r. discriminate.
Qed.

(** X18: [--interval-seconds=0] crashes the program with a division by zero
    whenever the arguments parse and the window is not negative. *)
Theorem Run_zero_interval_crashes
  (w : World) (order : list nat) (a : cliArgs) (from to d : Z) (color : Color) :
  Duration ParseDuration TrimSpace (argFrom a) = Done from -> Duration ParseDuration TrimSpace (argTo a) = Done to ->
  ParseColor (OverlayBackground a) = Ok color ->
  IntervalSeconds a = 0 ->
  checkFfmpegInstalled w = None -> readDuration w = Ok d ->
  0 <= (if to =? 0 then d else to) - from <= Int64.max ->
  Run ParseDuration TrimSpace w order a = Crash DivideByZero.
Proof.
  intros Hfrom Hto Hcolor Hi Hinst Hdur Hw.
  unfold cli.Run. rewrite Hfrom, Hto, Hcolor.
  set (opts := optionsOf a from to color).
  assert (Hint : Interval opts = 0) by (unfold opts, optionsOf; cbn; rewrite Hi; reflexivity).
  assert (Hwin : window opts d = (if to =? 0 then d else to) - from) by reflexivity.
  assert (Hvalid : Validate opts = None).
  { unfold Validate. rewrite Hint. cbn [From To opts optionsOf].
    revert Hw. destruct (Z.eqb_spec from 0), (Z.eqb_spec to 0),
      (Z.gtb_spec from to); simpl; intros; try reflexivity; lia. }
  assert (Hgen : Generate w order opts = Panic DivideByZero).
  { apply (MakeThumbnails_timing_panic w order opts d); try assumption.
    apply timing_by_zero_count; try assumption; try reflexivity.
    - rewrite Hwin. unfold Int64.in_range, Int64.min, Int64.max in *. lia.
    - rewrite Hwin. lia. }
  rewrite Hgen. reflexivity.
Qed.

(** X19: an empty [--overlay-background] crashes the program before the video
    is looked at. *)
Theorem Run_empty_background_crashes
  (w : World) (order : list nat) (a : cliArgs) (from to : Z) :
  Duration ParseDuration TrimSpace (argFrom a) = Done from -> Duration ParseDuration TrimSpace (argTo a) = Done to ->
  OverlayBackground a = "" ->
  Run ParseDuration TrimSpace w order a = Crash IndexOutOfRange.
Proof.
  intros Hfrom Hto Hbg. unfold cli.Run. rewrite Hfrom, Hto, Hbg. reflexivity.
Qed.

End RunFacts.

(** X17, witness: [--to=5] with the default [--from=10]. *)
Lemma Run_reports_only_range_as_invalid_to_5 :
  Run (fun _ => None) (fun s => s) (video 100) [] (defaultArgs "5" 60 "transparent")
  = Fail (ErrGenerateThumbnails (ErrMakeThumbnails (ErrInvalidOptions ErrStartAfterEnd))).
Proof.
  assert (H : exists x,
            Run (fun _ => None) (fun s => s) (video 100) []
              (defaultArgs "5" 60 "transparent")
            = Fail (ErrGenerateThumbnails (ErrMakeThumbnails (ErrInvalidOptions x))))
    by (eexists; reflexivity).
  destruct H as [x Hx]. rewrite Hx.
  rewrite (Run_reports_only_range_as_invalid _ _ _ _ _ _ Hx). reflexivity.
Defined.

(** X18, witness: [--interval-seconds=0] on a 100s video. *)
Lemma Run_zero_interval_crashes_default :
  Run (fun _ => None) (fun s => s) (video 100) [] (defaultArgs "" 0 "transparent")
  = Crash DivideByZero.
Proof.
  apply (Run_zero_interval_crashes (fun _ => None) (fun s => s) (video 100) []
           (defaultArgs "" 0 "transparent") (10 * Second) 0 (100 * Second)
           Transparent); try reflexivity.
  evaluate.
Defined.

(** X19, witness: [--overlay-background=""]. *)
Lemma Run_empty_background_crashes_default :
  Run (fun _ => None) (fun s => s) (video 100) [] (defaultArgs "" 60 "")
  = Crash IndexOutOfRange.
Proof.
  apply (Run_empty_background_crashes (fun _ => None) (fun s => s) (video 100) []
           (defaultArgs "" 60 "") (10 * Second) 0); reflexivity.
Defined.

End cliFacts.

(** ** package version *)

Module versionFacts.

Import version.

Local Open Scope list_scope.

Lemma length_prefix (s : string) (n : nat) :
  (n <= String.length s)%nat -> String.length (substring 0 n s) = n.
Proof.
  revert s. induction n as [| n IH]; intros s Hn.
  - destruct s; reflexivity.
  - destruct s as [| c s]; cbn [String.length] in Hn; [lia |].
    cbn [substring String.length]. rewrite IH by lia. reflexivity.
Qed.

Section GitVersionFacts.

Variable stamp : string -> string.

Lemma readSettings_app (l1 l2 : list BuildSetting) :
  forall info,
    readSettings stamp (l1 ++ l2) info
    = match readSettings stamp l1 info with
      | Some info' => readSettings stamp l2 info'
      | None => None
      end.
Proof.
  induction l1 as [| st l1 IH]; intros info; cbn [app readSettings];
    [reflexivity |].
  destruct (String.eqb (Key st) "vcs.revision").
  - destruct (String.length (Value st) <? 7)%nat; [reflexivity | apply IH].
  - destruct (String.eqb (Key st) "vcs.time"); apply IH.
Qed.

Lemma readSettings_keeps_commit (l : list BuildSetting) :
  Forall (fun st => Key st <> "vcs.revision") l ->
  forall info info',
    readSettings stamp l info = Some info' -> Commit info' = Commit info.
Proof.
  induction 1 as [| st l Hst Hl IH]; intros info info'; cbn [readSettings].
  - intros [= <-]. reflexivity.
  - destruct (String.eqb_spec (Key st) "vcs.revision"); [contradiction |].
    destruct (String.eqb (Key st) "vcs.time"); intros H; apply IH in H;
      exact H.
Qed.

Lemma readSettings_panics (settings : list BuildSetting) :
  forall info,
    readSettings stamp settings info = None <->
    Exists (fun st => Key st = "vcs.revision"
                      /\ (String.length (Value st) < 7)%nat) settings.
Proof.
  induction settings as [| st rest IH]; intros info; cbn [readSettings].
  - split; [discriminate | intros H; inversion H].
  - destruct (String.eqb_spec (Key st) "vcs.revision") as [Hk | Hk].
    + destruct (Nat.ltb_spec (String.length (Value st)) 7) as [Hlt | Hge].
      * split; [intros _; left; split; assumption | reflexivity].
      * rewrite IH. split; [intros H; right; exact H |].
        intros H. inversion H as [? ? [_ Hlt] | ? ? Hrest]; subst; [lia | exact Hrest].
    + destruct (String.eqb (Key st) "vcs.time"); rewrite IH;
        (split; [intros H; right; exact H |]);
        intros H; inversion H as [? ? [Hk' _] | ? ? Hrest]; subst;
        try contradiction; exact Hrest.
Qed.

(** X20: [GitVersion] panics exactly when the build information holds a
    [vcs.revision] shorter than seven bytes. *)
Theorem GitVersion_panics_on_short_revision (settings : list BuildSetting) :
  GitVersion stamp (Some settings) = None <->
  Exists (fun st => Key st = "vcs.revision"
                    /\ (String.length (Value st) < 7)%nat) settings.
Proof. unfold GitVersion. apply readSettings_panics. Qed.

(** X21: the commit reported is the first seven bytes of the last
    [vcs.revision] setting, and the version string ends with it. *)
Theorem GitVersion_abbreviates_last_revision
  (before after : list BuildSetting) (revision : string) (info : VersionInfo) :
  Forall (fun st => Key st <> "vcs.revision") after ->
  GitVersion stamp
    (Some (before ++ {| Key := "vcs.revision"; Value := revision |} :: after))
  = Some info ->
  Commit info = substring 0 7 revision /\
  String.length (Commit info) = 7%nat /\
  VersionInfo_String info = (CommitTime info ++ "." ++ substring 0 7 revision)%string.
Proof.
  intros Hafter. unfold GitVersion. rewrite readSettings_app.
  destruct (readSettings stamp before _) as [info0 |]; [| discriminate].
  cbn [readSettings Key Value String.eqb Ascii.eqb Bool.eqb andb].
  destruct (Nat.ltb_spec (String.length revision) 7) as [Hlt | Hge];
    [discriminate |].
  intros H. apply (readSettings_keeps_commit after Hafter) in H.
  cbn [Commit] in H. unfold slice in H. cbn [Nat.sub] in H.
  assert (Hc : Commit info = substring 0 7 revision) by exact H.
  split; [exact Hc |]. split.
  - rewrite Hc. apply length_prefix. exact Hge.
  - unfold VersionInfo_String. rewrite Hc. reflexivity.
Qed.

End GitVersionFacts.

(** X20, witness: a revision of six bytes. *)
Lemma GitVersion_panics_on_short_revision_stub :
  GitVersion (fun s => s)
    (Some [{| Key := "vcs.time"; Value := "2023-03-21T02:37:59Z" |};
           {| Key := "vcs.revision"; Value := "10a507" |}])
  = None.
Proof.
  apply (GitVersion_panics_on_short_revision (fun s => s)).
  right. left. split; [reflexivity | cbn; lia].
Defined.

(** X21, witness: a sixteen-byte revision followed by the commit time. *)
Lemma GitVersion_abbreviates_last_revision_full :
  exists info,
    GitVersion (fun s => s)
      (Some [{| Key := "vcs.revision"; Value := "10a507213a29f0e1" |};
             {| Key := "vcs.time"; Value := "20230321023759" |}])
    = Some info /\
    VersionInfo_String info = "20230321023759.10a5072"%string.
Proof.
  eexists. split; [reflexivity |].
  refine (proj2 (proj2 (GitVersion_abbreviates_last_revision (fun s => s)
                          [] [{| Key := "vcs.time"; Value := "20230321023759" |}]
                          "10a507213a29f0e1" _ _ eq_refl))).
  repeat constructor. discriminate.
Defined.

End versionFacts.

(** ** The errors of [MakeThumbnails] *)

(** X2: an interval larger than the window, whatever the sign of either, fails
    the call with "interval is larger than available video duration"
    before anything is extracted. *)
Theorem interval_larger_than_window_rejected
  (w : World) (order : list nat) (opts : ThumbOptions) (d : Z) :
  Validate opts = None -> checkFfmpegInstalled w = None ->
  readDuration w = Ok d ->
  Int64.in_range (window opts d) -> window opts d < Interval opts ->
  MakeThumbnails w order opts = Err (ErrIntervalLarger (window opts d)) /\
  Generate w order opts
  = Err (ErrMakeThumbnails (ErrIntervalLarger (window opts d))).
Proof.
  intros Hvalid Hinst Hdur Hfit Hi.
  apply (MakeThumbnails_timing_err w order opts d); try assumption.
  apply timing_rejects; assumption.
Qed.

(** X2, witness: a 200s interval over a 100s window. *)
Lemma interval_larger_than_window_rejected_200_100 :
  MakeThumbnails (video 100) [] (options 0 0 0 (200 * Second))
  = Err (ErrIntervalLarger (100 * Second)).
Proof.
  refine (proj1 (interval_larger_than_window_rejected (video 100) []
                   (options 0 0 0 (200 * Second)) (100 * Second) _ _ _ _ _));
    evaluate.
Defined.

Lemma failures_kinds (w : World) (opts : ThumbOptions) (start interval : Z)
  (ks : list Z) :
  Forall (fun e => (exists stderr, e = ErrRunFfmpeg stderr)
                   \/ (exists cause, e = ErrDecodeImage cause))
    (failures w opts start interval ks).
Proof.
  apply Forall_forall. intros e He. unfold failures in He.
  apply in_flat_map in He. destruct He as (i & _ & He).
  unfold extractAt, extractThumbnail in He.
  destruct (if TileWidth opts =? 0 then (-1, TileHeight opts)
            else if TileHeight opts =? 0 then (TileWidth opts, -1)
            else (TileWidth opts, TileHeight opts)) as [w' h'].
  destruct (ffmpeg w _ w' h'); cbn in He.
  - destruct He as [<- | []]. left. eexists. reflexivity.
  - destruct He as [<- | []]. right. eexists. reflexivity.
  - destruct He.
Qed.

(** X4: the errors [MakeThumbnails] can return are: invalid options, a missing
    tool, a failed probe, an interval larger than the window, or the join
    of one or more extraction failures, each an ffmpeg exit or an
    undecodable frame.  There is no other error. *)
Theorem MakeThumbnails_errors
  (w : World) (order : list nat) (opts : ThumbOptions) (e : error) :
  MakeThumbnails w order opts = Err e ->
  (exists cause, e = ErrInvalidOptions cause /\ Validate opts = Some cause) \/
  e = ErrFfmpegNotInstalled \/ e = ErrFfprobeNotInstalled \/
  (exists cause, e = ErrReadDuration cause /\ readDuration w = Err cause) \/
  (exists z, e = ErrIntervalLarger z) \/
  (exists causes,
     e = ErrJoin causes /\ causes <> [] /\
     Forall (fun c => (exists stderr, c = ErrRunFfmpeg stderr)
                      \/ (exists cause, c = ErrDecodeImage cause)) causes).
Proof.
  unfold MakeThumbnails.
  destruct (Validate opts) as [cause |];
    [intros [= <-]; left; eexists; split; reflexivity |].
  unfold checkFfmpegInstalled.
  destruct (ffmpegInPath w); cbn [negb];
    [| intros [= <-]; right; left; reflexivity].
  destruct (ffprobeInPath w); cbn [negb];
    [| intros [= <-]; right; right; left; reflexivity].
  destruct (readDuration w) as [d | cause |];
    [| intros [= <-]; right; right; right; left; eexists; split; reflexivity
     | discriminate].
  destruct (timing opts d) as [[[start interval] n] | e' | p] eqn:Ht; cbn [bind].
  - rewrite Wait_eq.
    destruct (flat_map (errorOf _) order) as [| c causes] eqn:Hc; [discriminate |].
    intros [= <-]. do 5 right. eexists. split; [reflexivity |].
    split; [discriminate |]. rewrite <- Hc.
    apply Forall_forall. intros x Hx. apply in_flat_map in Hx.
    destruct Hx as (k & _ & Hx). unfold errorOf in Hx.
    destruct (nth_error _ k) as [[r [err |]] |] eqn:Hnth;
      [| destruct Hx | destruct Hx].
    destruct Hx as [<- | []].
    apply nth_error_In, in_map_iff in Hnth. destruct Hnth as (i & Hi & _).
    unfold extractTask in Hi.
    destruct (extractThumbnail w _ _ _) as [err' | th] eqn:Hex; inversion Hi; subst.
    pose proof (failures_kinds w opts start interval [i]) as Hk.
    unfold failures, extractAt in Hk. cbn [flat_map] in Hk. rewrite Hex in Hk.
    inversion Hk; assumption.
  - intros [= <-]. destruct (cliFacts.timing_err_inv _ _ _ Ht) as [z ->].
    do 4 right. left. eexists. reflexivity.
  - discriminate.
Qed.

(** X4, witness: the joined error of a video none of whose frames extract. *)
Lemma MakeThumbnails_errors_broken_video :
  exists causes,
    MakeThumbnails (brokenVideo 100) [0; 1]%nat (options 0 (100 * Second) 2 0)
    = Err (ErrJoin causes) /\ causes <> [].
Proof.
  assert (H : MakeThumbnails (brokenVideo 100) [0; 1]%nat
                (options 0 (100 * Second) 2 0)
              = Err (ErrJoin [ErrRunFfmpeg "exit status 1";
                              ErrRunFfmpeg "exit status 1"]))
    by reflexivity.
  destruct (MakeThumbnails_errors _ _ _ _ H)
    as [(c & Hc & _) | [Hc | [Hc | [(c & Hc & _) | [(z & Hc)
        | (causes & Hc & Hne & _)]]]]]; try discriminate Hc.
  exists causes. rewrite H, Hc. split; [reflexivity | exact Hne].
Defined.
